(** * PhotoShake: rating engine, tag resolver, transformation compiler, QR renderer

    A shallow embedding of the repository layer of photo_shake_v3
    (src/repository/ratings.py, tags.py, fotos.py, transform_foto.py) over
    the tables of src/database/models.py, and the properties of the
    specification that concern them.

    Conventions.
    - A [db: Session] is a [Store]: one list of rows per table, in table
      order.  [query(T).filter(p).first()] is [first p rows]: the first row
      satisfying [p], or [None].
    - A nullable column is an [option]; SQL equality with NULL never holds.
    - The image service (cloudinary) and the QR rasteriser (pyqrcode) are
      outside the repository: they are Section variables, and every call to
      the image service is appended to a log kept next to the store.
    - A Python exception is a value of [exn]; a function that can raise
      returns a [result]. *)

From Stdlib Require Import ZArith List String Ascii Bool Lia.
From Stdlib Require Import DecimalString.
Import ListNotations.

Set Warnings "-register-all".

Local Open Scope string_scope.
Local Open Scope list_scope.
Local Open Scope Z_scope.

(** ** Python values and truth tests *)

(** The dictionaries handed to the image service: string keys, values that
    are strings, integers, nested dictionaries or lists. *)
Inductive pyval : Type :=
| VStr (s : string)
| VInt (z : Z)
| VDict (d : list (string * pyval))
| VList (l : list pyval).

(** [str(n)] for an [int]. *)
Definition str_int (z : Z) : string :=
  NilZero.string_of_int (Z.to_int z).

(** [f"{x}"] for an optional integer field: [None] prints as "None". *)
Definition fmt_int (o : option Z) : string :=
  match o with
  | Some z => str_int z
  | None => "None"
  end.

(** [f"{x}"] for an optional string field. *)
Definition fmt_str (o : option string) : string :=
  match o with
  | Some s => s
  | None => "None"
  end.

(** Python's truth test on an optional integer: [None] and [0] are false. *)
Definition truthy_int (o : option Z) : bool :=
  match o with
  | Some z => negb (z =? 0)
  | None => false
  end.

(** Python's truth test on an optional string: [None] and [""] are false. *)
Definition truthy_str (o : option string) : bool :=
  match o with
  | Some s => negb (s =? "")%string
  | None => false
  end.

(** Python's truth test on a list. *)
Definition truthy_list {A : Type} (l : list A) : bool :=
  match l with
  | [] => false
  | _ :: _ => true
  end.

(** Python's truth test on [x] when [x] is a row object or [None]. *)
Definition truthy_obj {A : Type} (o : option A) : bool :=
  match o with
  | Some _ => true
  | None => false
  end.

(** SQL [column == value] on a nullable integer column. *)
Definition col_eqb (c : option Z) (v : Z) : bool :=
  match c with
  | Some x => x =? v
  | None => false
  end.

(** [query.filter(p).first()]. *)
Fixpoint first {A : Type} (p : A -> bool) (rows : list A) : option A :=
  match rows with
  | [] => None
  | r :: rest => if p r then Some r else first p rest
  end.

(** A mutation of the row object returned by [first], then [db.commit()]:
    the first row satisfying [p] is replaced by its image under [f]. *)
Fixpoint update_first {A : Type} (p : A -> bool) (f : A -> A) (rows : list A)
  : list A :=
  match rows with
  | [] => []
  | r :: rest => if p r then f r :: rest else r :: update_first p f rest
  end.

(** [db.delete(row)] for the row object returned by [first]. *)
Fixpoint delete_first {A : Type} (p : A -> bool) (rows : list A) : list A :=
  match rows with
  | [] => []
  | r :: rest => if p r then rest else r :: delete_first p rest
  end.

(** A relationship that is loaded from the association table lists each
    related row once: the ids in order of first appearance. *)
Fixpoint dedup (ids : list Z) : list Z :=
  match ids with
  | [] => []
  | x :: rest => x :: filter (fun y => negb (y =? x)) (dedup rest)
  end.

(** The primary key given to an inserted row: one more than the largest
    key of the table. *)
Definition fresh_id (ids : list Z) : Z :=
  1 + fold_right Z.max 0 ids.

(** ** Exceptions *)

(** Modelled from the spec: the message constants of src/conf/messages.py,
    which is absent; each fixed message is kept as its name. *)
Inductive message : Type :=
| OWN_FOTO
| VOTE_TWICE
| NOT_FOUND.

Inductive exn : Type :=
| HTTPException (status_code : Z) (detail : message)
| AttributeError (what : string)
| ValueError (what : string)
| IntegrityError (what : string).

Definition HTTP_404_NOT_FOUND : Z := 404.
Definition HTTP_423_LOCKED : Z := 423.

(** The error kinds of the specification, as the code raises them. *)
Definition SelfVoteError : exn := HTTPException HTTP_423_LOCKED OWN_FOTO.
Definition DuplicateVoteError : exn := HTTPException HTTP_423_LOCKED VOTE_TWICE.
Definition NotFoundError : exn := HTTPException HTTP_404_NOT_FOUND NOT_FOUND.

Inductive result (A : Type) : Type :=
| Return (a : A)
| Raise (e : exn).

Arguments Return {A} a.
Arguments Raise {A} e.

(** ** Tables (src/database/models.py) *)

Inductive UserRoleEnum : Type := user | moder | admin.

Definition role_eqb (a b : UserRoleEnum) : bool :=
  match a, b with
  | user, user | moder, moder | admin, admin => true
  | _, _ => false
  end.

Module User.
Record t : Type := mk {
  id : Z;
  username : string;
  role : UserRoleEnum
}.
End User.

Module Tag.
Record t : Type := mk {
  id : Z;
  title : string;
  created_at : Z;
  user_id : option Z
}.

Definition set_title (s : string) (g : t) : t :=
  mk (id g) s (created_at g) (user_id g).
End Tag.

Module Foto.
(** [tags] holds the ids of the associated Tag rows (foto_m2m_tag), each
    once, as the relationship lists them when it is loaded.  The aggregated
    [avg_rating] column is not modelled: a listener of sqlalchemy_utils
    rewrites it when a Rating of the photo is written, and no function
    below reads it.  What is stated below of a photo row after a rating
    function ran is therefore stated of the other columns only. *)
Record t : Type := mk {
  id : Z;
  image_url : option string;
  transform_url : option string;
  title : option string;
  descr : option string;
  created_at : Z;
  updated_at : Z;
  tags : list Z;
  done : bool;
  user_id : option Z;
  public_id : option string
}.

Definition set_transform_url (u : option string) (f : t) : t :=
  mk (id f) (image_url f) u (title f) (descr f) (created_at f)
     (updated_at f) (tags f) (done f) (user_id f) (public_id f).
End Foto.

Module Rating.
Record t : Type := mk {
  id : Z;
  rate : Z;
  created_at : Z;
  foto_id : Z;
  user_id : option Z
}.

Definition set_rate (v : Z) (r : t) : t :=
  mk (id r) v (created_at r) (foto_id r) (user_id r).
End Rating.

(** The database session: the three tables the repository functions below
    read and write. *)
Record Store : Type := mkStore {
  fotos : list Foto.t;
  tags : list Tag.t;
  ratings : list Rating.t
}.

Definition set_fotos (l : list Foto.t) (s : Store) : Store :=
  mkStore l (tags s) (ratings s).
Definition set_tags (l : list Tag.t) (s : Store) : Store :=
  mkStore (fotos s) l (ratings s).
Definition set_ratings (l : list Rating.t) (s : Store) : Store :=
  mkStore (fotos s) (tags s) l.

(** ** Rating engine (src/repository/ratings.py) *)

Module Ratings.

Definition is_self_foto (foto_id : Z) (u : User.t) (db : Store)
  : option Foto.t :=
  first (fun f => (Foto.id f =? foto_id) && col_eqb (Foto.user_id f) (User.id u))
        (fotos db).

Definition already_voted (foto_id : Z) (u : User.t) (db : Store)
  : option Rating.t :=
  first (fun r => (Rating.foto_id r =? foto_id)
                  && col_eqb (Rating.user_id r) (User.id u))
        (ratings db).

Definition foto_exists (foto_id : Z) (db : Store) : option Foto.t :=
  first (fun f => Foto.id f =? foto_id) (fotos db).

(** [create_rate]: the three queries, then the if/elif chain; falling off
    the end of the chain returns [None].  [rate] is any Python int; what
    the database driver does with one that the Integer column cannot hold
    is outside the repository. *)
Definition create_rate (now : Z) (foto_id rate : Z) (db : Store) (u : User.t)
  : result (option Rating.t) * Store :=
  if truthy_obj (is_self_foto foto_id u db) then
    (Raise (HTTPException HTTP_423_LOCKED OWN_FOTO), db)
  else if truthy_obj (already_voted foto_id u db) then
    (Raise (HTTPException HTTP_423_LOCKED VOTE_TWICE), db)
  else if truthy_obj (foto_exists foto_id db) then
    let new_rate :=
      Rating.mk (fresh_id (map Rating.id (ratings db))) rate now foto_id
                (Some (User.id u)) in
    (Return (Some new_rate), set_ratings (ratings db ++ [new_rate]) db)
  else
    (Return None, db).

(** [edit_rate].  The condition is
    [user.role in [admin, moder] or rate.user_id == user.id]: [or] does
    not evaluate its right operand when the left one is true; when it
    does, reading [rate.user_id] on [None] raises AttributeError. *)
Definition edit_rate_permitted (rate : option Rating.t) (u : User.t)
  : result bool :=
  if role_eqb (User.role u) admin || role_eqb (User.role u) moder then
    Return true
  else
    match rate with
    | Some r => Return (col_eqb (Rating.user_id r) (User.id u))
    | None =>
        Raise (AttributeError "'NoneType' object has no attribute 'user_id'")
    end.

Definition edit_rate (rate_id new_rate : Z) (db : Store) (u : User.t)
  : result (option Rating.t) * Store :=
  let rate := first (fun r => Rating.id r =? rate_id) (ratings db) in
  match edit_rate_permitted rate u with
  | Raise e => (Raise e, db)
  | Return true =>
      match rate with
      | Some r =>
          (Return (Some (Rating.set_rate new_rate r)),
           set_ratings (update_first (fun r => Rating.id r =? rate_id)
                          (Rating.set_rate new_rate) (ratings db)) db)
      | None => (Return rate, db)
      end
  | Return false => (Return rate, db)
  end.

(** [delete_rate]. *)
Definition delete_rate (rate_id : Z) (db : Store) (u : User.t)
  : option Rating.t * Store :=
  match first (fun r => Rating.id r =? rate_id) (ratings db) with
  | Some r =>
      (Some r, set_ratings (delete_first (fun r => Rating.id r =? rate_id)
                                         (ratings db)) db)
  | None => (None, db)
  end.

(** Modelled from the spec: the route of src/routes/ratings.py that serves
    a cast vote, which is absent; like the routes of
    src/routes/transform_post.py it answers 404 with the fixed NOT_FOUND
    message when the repository function returns [None]. *)
Definition route_create_rate (now : Z) (foto_id rate : Z) (db : Store)
           (u : User.t) : result Rating.t * Store :=
  match create_rate now foto_id rate db u with
  | (Return (Some r), db') => (Return r, db')
  | (Return None, db') => (Raise (HTTPException HTTP_404_NOT_FOUND NOT_FOUND), db')
  | (Raise e, db') => (Raise e, db')
  end.

(** [show_ratings]. *)
Definition show_ratings (db : Store) (u : User.t) : list Rating.t :=
  ratings db.

(** [show_my_ratings]. *)
Definition show_my_ratings (db : Store) (u : User.t) : list Rating.t :=
  filter (fun r => col_eqb (Rating.user_id r) (User.id u)) (ratings db).

(** [user_rate_foto]. *)
Definition user_rate_foto (user_id foto_id : Z) (db : Store) (u : User.t)
  : option Rating.t :=
  first (fun r => (Rating.foto_id r =? foto_id)
                  && col_eqb (Rating.user_id r) user_id)
        (ratings db).

End Ratings.

(** ** Tags (src/repository/tags.py) *)

Module Tags.

(** [create_tag]: get-or-create by title; [body.title] is passed as
    [title]. *)
Definition create_tag (now : Z) (title : string) (u : User.t) (db : Store)
  : Tag.t * Store :=
  match first (fun g => (Tag.title g =? title)%string) (tags db) with
  | Some tag => (tag, db)
  | None =>
      let tag := Tag.mk (fresh_id (map Tag.id (tags db))) title now
                        (Some (User.id u)) in
      (tag, set_tags (tags db ++ [tag]) db)
  end.

End Tags.

(** ** The image service and the QR rasteriser *)

(** The calls made to the image service, in the order they are made. *)
Inductive cloud_call : Type :=
| InitCloudinary
| Upload (file : string) (public_id : string)
| BuildUrl (public_id : option string) (options : list (string * pyval))
| Destroy (public_id : option string).

(** The store together with the log of calls to the image service. *)
Record World : Type := mkWorld {
  db : Store;
  cloud : list cloud_call
}.

(** [base64.b64encode(bytes).decode("ascii")]. *)
Definition b64_alphabet : string :=
  "ABCDEFGHIJKLMNOPQRSTUVWXYZabcdefghijklmnopqrstuvwxyz0123456789+/".

Definition b64_char (n : N) : ascii :=
  match String.get (N.to_nat n) b64_alphabet with
  | Some c => c
  | None => "="%char
  end.

Fixpoint b64encode (bs : list Byte.byte) : string :=
  match bs with
  | [] => ""
  | [a] =>
      let x := Byte.to_N a in
      String (b64_char (x / 4))
        (String (b64_char ((x mod 4) * 16)) "==")
  | [a; b] =>
      let x := Byte.to_N a in
      let y := Byte.to_N b in
      String (b64_char (x / 4))
        (String (b64_char ((x mod 4) * 16 + y / 16))
           (String (b64_char ((y mod 16) * 4)) "="))
  | a :: b :: c :: rest =>
      let x := Byte.to_N a in
      let y := Byte.to_N b in
      let z := Byte.to_N c in
      String (b64_char (x / 4))
        (String (b64_char ((x mod 4) * 16 + y / 16))
           (String (b64_char ((y mod 16) * 4 + z / 64))
              (String (b64_char (z mod 64)) (b64encode rest))))
  end%N.

(** [s.split(sep)] for a one-character separator. *)
Fixpoint split (sep : ascii) (s : string) : list string :=
  match s with
  | EmptyString => [""]
  | String c rest =>
      if Ascii.eqb c sep then "" :: split sep rest
      else
        match split sep rest with
        | w :: ws => String c w :: ws
        | [] => [String c ""]
        end
  end.

(** ** Photos (src/repository/fotos.py) *)

Module FotoUpdate.
(** src/schemas.py, [FotoUpdate]. *)
Record t : Type := mk {
  title : string;
  descr : string;
  tags : list string
}.
End FotoUpdate.

Module Fotos.
Section WithImageService.

(** [cloudinary.CloudinaryImage(public_id).build_url] with its keyword
    arguments as a dictionary. *)
Variable build_url : option string -> list (string * pyval) -> string.

(** [get_tags]: the loop over [tag_titles], each title got or created. *)
Fixpoint get_tags (now : Z) (tag_titles : list string) (u : User.t)
         (db : Store) : list Tag.t * Store :=
  match tag_titles with
  | [] => ([], db)
  | tag_title :: rest =>
      let (tag, db1) :=
        match first (fun g => (Tag.title g =? tag_title)%string) (tags db) with
        | Some tag => (tag, db)
        | None =>
            let tag := Tag.mk (fresh_id (map Tag.id (tags db))) tag_title now
                              (Some (User.id u)) in
            (tag, set_tags (tags db ++ [tag]) db)
        end in
      let (found, db2) := get_tags now rest u db1 in
      (tag :: found, db2)
  end.

(** The keyword arguments of the [build_url] call of [create_foto]. *)
Definition thumbnail_options : list (string * pyval) :=
  [("width", VInt 250); ("height", VInt 250); ("crop", VStr "fill")].

(** [create_foto].  [tags] is the declared [List] of form strings (a call
    without the form field, for which the constructor of [Foto] refuses
    [None], is outside this type); only its first entry is read, split at
    commas.  The photo is returned after [db.refresh]: its tags are those
    of the reloaded relationship. *)
Definition create_foto (now : Z) (title descr : string) (tags : list string)
           (file : string) (w : World) (current_user : User.t)
  : Foto.t * World :=
  let photo_number := 1 in
  let db_photo :=
    first (fun f => col_eqb (Foto.user_id f) (User.id current_user)
                    && (Foto.id f =? photo_number))
          (fotos (db w)) in
  let photo_number :=
    if truthy_obj db_photo then photo_number + 1 else photo_number in
  let public_id := ("PhotoShake/" ++ str_int photo_number)%string in
  let url :=
    build_url (Some ("PhotoShake/" ++ str_int photo_number)%string)
              thumbnail_options in
  let url2 := url in
  let (tag_rows, db1) :=
    match tags with
    | tag0 :: _ => get_tags now (split "," tag0) current_user (db w)
    | [] => ([], db w)
    end in
  let foto :=
    Foto.mk (fresh_id (map Foto.id (fotos db1)))
            (Some url) (Some url2) (Some title) (Some descr) now now
            (dedup (map Tag.id tag_rows)) true (Some (User.id current_user))
            (Some public_id) in
  (foto,
   mkWorld (set_fotos (fotos db1 ++ [foto]) db1)
           (cloud w ++ [InitCloudinary; Upload file public_id;
                        BuildUrl (Some public_id) thumbnail_options])).

(** [update_foto].  The photo is returned after [db.commit]: its tags are
    those of the reloaded relationship. *)
Definition update_foto (now : Z) (foto_id : Z) (body : FotoUpdate.t)
           (u : User.t) (w : World) : option Foto.t * World :=
  match first (fun f => Foto.id f =? foto_id) (fotos (db w)) with
  | Some foto =>
      if role_eqb (User.role u) admin || col_eqb (Foto.user_id foto) (User.id u)
      then
        let (tag_rows, db1) :=
          if truthy_list (FotoUpdate.tags body)
          then get_tags now (FotoUpdate.tags body) u (db w)
          else ([], db w) in
        let edit f :=
          Foto.mk (Foto.id f) (Foto.image_url f) (Foto.transform_url f)
                  (Some (FotoUpdate.title body)) (Some (FotoUpdate.descr body))
                  (Foto.created_at f) now (dedup (map Tag.id tag_rows)) true
                  (Foto.user_id f) (Foto.public_id f) in
        (Some (edit foto),
         mkWorld (set_fotos (update_first (fun f => Foto.id f =? foto_id) edit
                                          (fotos db1)) db1)
                 (cloud w))
      else (Some foto, w)
  | None => (None, w)
  end.

(** [remove_foto].  [Foto.rating] is a relationship without delete
    cascade: [db.delete(foto)] sets [ratings.foto_id] of the photo's
    Ratings to NULL, which the column (nullable=False) refuses, so that for
    a rated photo [db.commit()] raises IntegrityError and nothing is
    removed; the destroy call has been made by then. *)
Definition remove_foto (foto_id : Z) (u : User.t) (w : World)
  : result (option Foto.t) * World :=
  match first (fun f => Foto.id f =? foto_id) (fotos (db w)) with
  | Some foto =>
      if role_eqb (User.role u) admin || col_eqb (Foto.user_id foto) (User.id u)
      then
        let called :=
          cloud w ++ [InitCloudinary; Destroy (Foto.public_id foto)] in
        if existsb (fun r => Rating.foto_id r =? Foto.id foto) (ratings (db w))
        then
          (Raise (IntegrityError "NOT NULL constraint failed: ratings.foto_id"),
           mkWorld (db w) called)
        else
          (Return (Some foto),
           mkWorld (set_fotos (delete_first (fun f => Foto.id f =? foto_id)
                                            (fotos (db w))) (db w))
                   called)
      else (Return (Some foto), w)
  | None => (Return None, w)
  end.

End WithImageService.

(** [offset(skip).limit(limit)] on a result list, for [skip] and [limit]
    that are not negative (what a database does with a negative one is
    outside the repository). *)
Definition paginate {A : Type} (skip limit : Z) (rows : list A) : list A :=
  firstn (Z.to_nat limit) (skipn (Z.to_nat skip) rows).

(** [get_my_fotos]. *)
Definition get_my_fotos (skip limit : Z) (u : User.t) (db : Store)
  : list Foto.t :=
  paginate skip limit
           (filter (fun f => col_eqb (Foto.user_id f) (User.id u)) (fotos db)).


End Fotos.

(** ** Transformation request *)

(** Modelled from the spec: [TransformBodyModel] of src/tramsform_schemas.py,
    which is absent.  Five groups, each with its enable flag [use_filter]
    and its parameters, under the field names that [transform_metod] reads.
    A parameter may be missing ([None]). *)
Module Circle.
Record t : Type := mk {
  use_filter : bool;
  height : option Z;
  width : option Z
}.
End Circle.

Module Effect.
Record t : Type := mk {
  use_filter : bool;
  art_audrey : bool;
  art_zorro : bool;
  blur : bool;
  cartoonify : bool
}.
End Effect.

Module Resize.
Record t : Type := mk {
  use_filter : bool;
  crop : bool;
  fill : bool;
  height : option Z;
  width : option Z
}.
End Resize.

Module Text.
Record t : Type := mk {
  use_filter : bool;
  font_size : option Z;
  text : option string
}.
End Text.

Module Rotate.
Record t : Type := mk {
  use_filter : bool;
  width : option Z;
  degree : option Z
}.
End Rotate.

Module TransformBodyModel.
Record t : Type := mk {
  circle : Circle.t;
  effect : Effect.t;
  resize : Resize.t;
  text : Text.t;
  rotate : Rotate.t
}.
End TransformBodyModel.

(** ** Transformation compiler and QR renderer
       (src/repository/transform_foto.py) *)

Module TransformFoto.

Import TransformBodyModel.

(** The five [if] blocks of [transform_metod], each as the list it appends
    to [transformation]. *)
Definition circle_ops (body : TransformBodyModel.t) : list pyval :=
  if Circle.use_filter (circle body)
     && truthy_int (Circle.height (circle body))
     && truthy_int (Circle.width (circle body))
  then
    [VDict [("gravity", VStr "face");
            ("height", VStr (fmt_int (Circle.height (circle body))));
            ("width", VStr (fmt_int (Circle.width (circle body))));
            ("crop", VStr "thumb")];
     VDict [("radius", VStr "max")]]
  else [].

(** The effect name after the four successive [if]s. *)
Definition resolved_effect (e : Effect.t) : string :=
  let effect := "" in
  let effect := if Effect.art_audrey e then "art:audrey" else effect in
  let effect := if Effect.art_zorro e then "art:zorro" else effect in
  let effect := if Effect.blur e then "blur:300" else effect in
  let effect := if Effect.cartoonify e then "cartoonify" else effect in
  effect.

Definition effect_ops (body : TransformBodyModel.t) : list pyval :=
  if Effect.use_filter (effect body) then
    let effect := resolved_effect (effect body) in
    if truthy_str (Some effect) then [VDict [("effect", VStr effect)]] else []
  else [].

(** The crop mode after the two successive [if]s. *)
Definition resolved_crop (r : Resize.t) : string :=
  let crop := "" in
  let crop := if Resize.crop r then "crop" else crop in
  let crop := if Resize.fill r then "fill" else crop in
  crop.

(** The guard reads [body.resize.height] twice. *)
Definition resize_ops (body : TransformBodyModel.t) : list pyval :=
  if Resize.use_filter (resize body)
     && truthy_int (Resize.height (resize body))
     && truthy_int (Resize.height (resize body))
  then
    let crop := resolved_crop (resize body) in
    if truthy_str (Some crop) then
      [VDict [("gravity", VStr "auto");
              ("height", VStr (fmt_int (Resize.height (resize body))));
              ("width", VStr (fmt_int (Resize.width (resize body))));
              ("crop", VStr crop)]]
    else []
  else [].

Definition text_ops (body : TransformBodyModel.t) : list pyval :=
  if Text.use_filter (text body)
     && truthy_int (Text.font_size (text body))
     && truthy_str (Text.text (text body))
  then
    [VDict [("color", VStr "#FFFF00");
            ("overlay",
             VDict [("font_family", VStr "Times");
                    ("font_size", VStr (fmt_int (Text.font_size (text body))));
                    ("font_weight", VStr "bold");
                    ("text", VStr (fmt_str (Text.text (text body))))])];
     VDict [("flags", VStr "layer_apply"); ("gravity", VStr "south");
            ("y", VInt 20)]]
  else [].

Definition rotate_ops (body : TransformBodyModel.t) : list pyval :=
  if Rotate.use_filter (rotate body)
     && truthy_int (Rotate.width (rotate body))
     && truthy_int (Rotate.degree (rotate body))
  then
    [VDict [("width", VStr (fmt_int (Rotate.width (rotate body))));
            ("crop", VStr "scale")];
     VDict [("angle", VStr "vflip")];
     VDict [("angle", VStr (fmt_int (Rotate.degree (rotate body))))]]
  else [].

(** The list [transformation] when the last block has run. *)
Definition transformation (body : TransformBodyModel.t) : list pyval :=
  let transformation := [] in
  let transformation := transformation ++ circle_ops body in
  let transformation := transformation ++ effect_ops body in
  let transformation := transformation ++ resize_ops body in
  let transformation := transformation ++ text_ops body in
  let transformation := transformation ++ rotate_ops body in
  transformation.

Definition owned_by (foto_id : Z) (u : User.t) (f : Foto.t) : bool :=
  col_eqb (Foto.user_id f) (User.id u) && (Foto.id f =? foto_id).

Section WithServices.

Variable build_url : option string -> list (string * pyval) -> string.

(** [pyqrcode.create(data)] followed by [img.png(buffer, scale=scale)]:
    the bytes written to the buffer, or [None] when [pyqrcode.create]
    raises ValueError because the data does not fit in a QR code. *)
Variable qr_png : string -> Z -> option (list Byte.byte).

(** [transform_metod]. *)
Definition transform_metod (foto_id : Z) (body : TransformBodyModel.t)
           (u : User.t) (w : World) : option Foto.t * World :=
  match first (owned_by foto_id u) (fotos (db w)) with
  | Some foto =>
      let transformation := transformation body in
      if truthy_list transformation then
        let options := [("transformation", VList transformation)] in
        let url := build_url (Foto.public_id foto) options in
        (Some (Foto.set_transform_url (Some url) foto),
         mkWorld (set_fotos (update_first (owned_by foto_id u)
                               (Foto.set_transform_url (Some url))
                               (fotos (db w))) (db w))
                 (cloud w ++ [InitCloudinary;
                              BuildUrl (Foto.public_id foto) options]))
      else (Some foto, w)
  | None => (None, w)
  end.

(** The ValueError of [pyqrcode.create]. *)
Definition qr_too_large : exn :=
  ValueError "the data will not fit inside a QR code".

(** [show_qr]. *)
Definition show_qr (foto_id : Z) (u : User.t) (w : World)
  : result (option string) :=
  match first (owned_by foto_id u) (fotos (db w)) with
  | Some foto =>
      match Foto.transform_url foto with
      | Some url =>
          if truthy_str (Some url) then
            match qr_png url 6 with
            | Some buffered =>
                let encoded_img := b64encode buffered in
                Return (Some encoded_img)
            | None => Raise qr_too_large
            end
          else Return None
      | None => Return None
      end
  | None => Return None
  end.

End WithServices.
End TransformFoto.

(** ** Routes (src/routes/transform_post.py, src/routes/fotos.py) *)

(** The routes call the repository function and answer 404 with the fixed
    message when it returns [None]; an exception of the repository function
    passes through. *)
Module TransformRoutes.
Section WithServices.

Variable build_url : option string -> list (string * pyval) -> string.
Variable qr_png : string -> Z -> option (list Byte.byte).

(** [PATCH /transformations/{foto_id}]. *)
Definition transform_metod (foto_id : Z) (body : TransformBodyModel.t)
           (w : World) (current_user : User.t) : result Foto.t * World :=
  let (foto, w') :=
    TransformFoto.transform_metod build_url foto_id body current_user w in
  match foto with
  | None => (Raise (HTTPException HTTP_404_NOT_FOUND NOT_FOUND), w')
  | Some foto => (Return foto, w')
  end.

(** [POST /transformations/qr/{foto_id}]. *)
Definition show_qr (foto_id : Z) (w : World) (current_user : User.t)
  : result string :=
  match TransformFoto.show_qr qr_png foto_id current_user w with
  | Raise e => Raise e
  | Return None => Raise (HTTPException HTTP_404_NOT_FOUND NOT_FOUND)
  | Return (Some foto) => Return foto
  end.

End WithServices.
End TransformRoutes.

Module FotoRoutes.


(** [PUT /fotos/{foto_id}]. *)
Definition update_foto (now : Z) (body : FotoUpdate.t) (foto_id : Z)
           (w : World) (current_user : User.t) : result Foto.t * World :=
  let (foto, w') := Fotos.update_foto now foto_id body current_user w in
  match foto with
  | None => (Raise (HTTPException HTTP_404_NOT_FOUND NOT_FOUND), w')
  | Some foto => (Return foto, w')
  end.

(** [DELETE /fotos/{foto_id}]. *)
Definition remove_foto (foto_id : Z) (w : World) (current_user : User.t)
  : result Foto.t * World :=
  let (foto, w') := Fotos.remove_foto foto_id current_user w in
  match foto with
  | Raise e => (Raise e, w')
  | Return None => (Raise (HTTPException HTTP_404_NOT_FOUND NOT_FOUND), w')
  | Return (Some foto) => (Return foto, w')
  end.

End FotoRoutes.

(** ** Histories of the store *)

Section Histories.

Variable build_url : option string -> list (string * pyval) -> string.

(** A rating or tag function acts on the store and makes no call to the
    image service. *)
Definition on_db (w : World) (db' : Store) : World := mkWorld db' (cloud w).

(** One call of a writing repository function, by any user with any
    arguments. *)
Inductive step : World -> World -> Prop :=
| step_create_foto now title descr tags file w u :
    step w (snd (Fotos.create_foto build_url now title descr tags file w u))
| step_update_foto now foto_id body u w :
    step w (snd (Fotos.update_foto now foto_id body u w))
| step_remove_foto foto_id u w :
    step w (snd (Fotos.remove_foto foto_id u w))
| step_transform_metod foto_id body u w :
    step w (snd (TransformFoto.transform_metod build_url foto_id body u w))
| step_create_rate now foto_id rate u w :
    step w (on_db w (snd (Ratings.create_rate now foto_id rate (db w) u)))
| step_edit_rate rate_id new_rate u w :
    step w (on_db w (snd (Ratings.edit_rate rate_id new_rate (db w) u)))
| step_delete_rate rate_id u w :
    step w (on_db w (snd (Ratings.delete_rate rate_id (db w) u)))
| step_create_tag now title u w :
    step w (on_db w (snd (Tags.create_tag now title u (db w)))).

(** The worlds in which every photo was created by [create_foto]: those
    reached from the empty store. *)
Inductive reachable : World -> Prop :=
| reachable_empty : reachable (mkWorld (mkStore [] [] []) [])
| reachable_step w w' : reachable w -> step w w' -> reachable w'.

End Histories.

(** ** Properties stated on the store *)

(** The rater owns the photo. *)
Definition owns (db : Store) (u : User.t) (foto_id : Z) : Prop :=
  exists f, In f (fotos db) /\ Foto.id f = foto_id
            /\ Foto.user_id f = Some (User.id u).

(** A Rating exists for the (photo, rater) pair. *)
Definition voted (db : Store) (u : User.t) (foto_id : Z) : Prop :=
  exists r, In r (ratings db) /\ Rating.foto_id r = foto_id
            /\ Rating.user_id r = Some (User.id u).

(** A photo with that id exists. *)
Definition photo_exists (db : Store) (foto_id : Z) : Prop :=
  exists f, In f (fotos db) /\ Foto.id f = foto_id.

(** The number of Tag rows with a given title. *)
Definition count_title (t : string) (rows : list Tag.t) : nat :=
  List.length (filter (fun g => (Tag.title g =? t)%string) rows).

(** The actor is an admin or a moderator. *)
Definition privileged (u : User.t) : Prop :=
  User.role u = admin \/ User.role u = moder.

(** The operation of the resize group, for a resolved crop mode. *)
Definition resize_op (r : Resize.t) (mode : string) : pyval :=
  VDict [("gravity", VStr "auto");
         ("height", VStr (fmt_int (Resize.height r)));
         ("width", VStr (fmt_int (Resize.width r)));
         ("crop", VStr mode)].


(** The three operations of the rotate group. *)
Definition scale_to_width (width : option Z) : pyval :=
  VDict [("width", VStr (fmt_int width)); ("crop", VStr "scale")].
Definition vertical_flip : pyval :=
  VDict [("angle", VStr "vflip")].
Definition rotate_by (degree : option Z) : pyval :=
  VDict [("angle", VStr (fmt_int degree))].

(** Every group of the request has its enable flag off. *)
Definition all_flags_off (body : TransformBodyModel.t) : Prop :=
  Circle.use_filter (TransformBodyModel.circle body) = false
  /\ Effect.use_filter (TransformBodyModel.effect body) = false
  /\ Resize.use_filter (TransformBodyModel.resize body) = false
  /\ Text.use_filter (TransformBodyModel.text body) = false
  /\ Rotate.use_filter (TransformBodyModel.rotate body) = false.

(** Every stored photo has a non-empty transform URL. *)
Definition all_transformed (w : World) : Prop :=
  forall f, In f (fotos (db w)) -> truthy_str (Foto.transform_url f) = true.

(** What a Rating is a vote of: the photo and the rater. *)
Definition vote_key (r : Rating.t) : Z * option Z :=
  (Rating.foto_id r, Rating.user_id r).

(** At most one Rating per (photo, rater) pair. *)
Definition one_vote_per_pair (db : Store) : Prop :=
  NoDup (map vote_key (ratings db)).

(** No Rating is a vote of the owner of the photo it rates. *)
Definition no_self_votes (db : Store) : Prop :=
  forall r f, In r (ratings db) -> In f (fotos db) ->
              Foto.id f = Rating.foto_id r ->
              Rating.user_id r = None \/ Foto.user_id f <> Rating.user_id r.

(** What [edit_rate] must not touch in a Rating. *)
Definition vote_identity (r : Rating.t) : Z * Z * Z * option Z :=
  (Rating.id r, Rating.created_at r, Rating.foto_id r, Rating.user_id r).

(** No two Tag rows share a title. *)
Definition titles_unique (db : Store) : Prop :=
  NoDup (map Tag.title (tags db)).

(** The tag ids of a photo are those of the Tags of the given titles: each
    id once, every title with a stored Tag among them, every id that of a
    stored Tag with one of the titles. *)
Definition tags_of_titles (db : Store) (titles : list string) (ids : list Z)
  : Prop :=
  NoDup ids
  /\ (forall t, In t titles ->
                exists g, In g (tags db) /\ Tag.title g = t /\ In (Tag.id g) ids)
  /\ (forall id, In id ids ->
                 exists g, In g (tags db) /\ Tag.id g = id
                           /\ In (Tag.title g) titles)
  /\ (List.length ids <= List.length titles)%nat.

(** The number of occurrences of a character in a string. *)
Fixpoint count_char (c : ascii) (s : string) : nat :=
  match s with
  | EmptyString => 0
  | String x rest =>
      ((if Ascii.eqb x c then 1 else 0) + count_char c rest)%nat
  end.

(** What no function may change in a stored photo. *)
Definition foto_identity (f : Foto.t)
  : Z * option Z * option string * option string * Z :=
  (Foto.id f, Foto.user_id f, Foto.public_id f, Foto.image_url f,
   Foto.created_at f).

(** The guards of the five groups of a request, as [transform_metod] tests
    them. *)
Definition circle_qualifies (body : TransformBodyModel.t) : bool :=
  Circle.use_filter (TransformBodyModel.circle body)
  && truthy_int (Circle.height (TransformBodyModel.circle body))
  && truthy_int (Circle.width (TransformBodyModel.circle body)).

Definition effect_qualifies (body : TransformBodyModel.t) : bool :=
  let e := TransformBodyModel.effect body in
  Effect.use_filter e
  && (Effect.art_audrey e || Effect.art_zorro e || Effect.blur e
      || Effect.cartoonify e).

Definition resize_qualifies (body : TransformBodyModel.t) : bool :=
  let r := TransformBodyModel.resize body in
  Resize.use_filter r && truthy_int (Resize.height r)
  && (Resize.crop r || Resize.fill r).

Definition text_qualifies (body : TransformBodyModel.t) : bool :=
  Text.use_filter (TransformBodyModel.text body)
  && truthy_int (Text.font_size (TransformBodyModel.text body))
  && truthy_str (Text.text (TransformBodyModel.text body)).

Definition rotate_qualifies (body : TransformBodyModel.t) : bool :=
  Rotate.use_filter (TransformBodyModel.rotate body)
  && truthy_int (Rotate.width (TransformBodyModel.rotate body))
  && truthy_int (Rotate.degree (TransformBodyModel.rotate body)).

(** The characters of a base64 text. *)
Definition b64_text_char (c : ascii) : bool :=
  existsb (Ascii.eqb c) (list_ascii_of_string b64_alphabet)
  || Ascii.eqb c "="%char.

(** ** Sample data *)

Definition alice : User.t := User.mk 1 "alice" user.
Definition bob : User.t := User.mk 2 "bob_user" user.
Definition root : User.t := User.mk 3 "root_admin" admin.

Definition sample_foto (id owner : Z) : Foto.t :=
  Foto.mk id (Some "image_url") (Some "transform_url") (Some "title")
          (Some "descr") 0 0 [] true (Some owner) (Some "888").

(** A store in which alice owns photo 1 and has (against the policy) a vote
    on it, and in which bob has a vote on photo 5, which no longer exists. *)
Definition store_with_stale_votes : Store :=
  mkStore [sample_foto 1 1]
          []
          [Rating.mk 1 5 0 1 (Some 1); Rating.mk 2 3 0 5 (Some 2)].

(** The store of the rating tests: photo 1 of user 1, photo 2 of user 2. *)
Definition store_two_fotos : Store :=
  mkStore [sample_foto 1 1; sample_foto 2 2] [] [].

(** One vote, by bob, on alice's photo. *)
Definition store_one_vote : Store :=
  mkStore [sample_foto 1 1; sample_foto 2 2] [] [Rating.mk 1 3 0 1 (Some 2)].

(** Requests.  [body_off] has every group switched off, with the parameter
    values of the tests; the others switch one group on. *)
Definition body_off : TransformBodyModel.t :=
  TransformBodyModel.mk
    (Circle.mk false (Some 400) (Some 400))
    (Effect.mk false false false false false)
    (Resize.mk false false false (Some 400) (Some 400))
    (Text.mk false (Some 70) (Some ""))
    (Rotate.mk false (Some 400) (Some 45)).

Definition with_effect (e : Effect.t) : TransformBodyModel.t :=
  TransformBodyModel.mk
    (TransformBodyModel.circle body_off) e (TransformBodyModel.resize body_off)
    (TransformBodyModel.text body_off) (TransformBodyModel.rotate body_off).

Definition with_resize (r : Resize.t) : TransformBodyModel.t :=
  TransformBodyModel.mk
    (TransformBodyModel.circle body_off) (TransformBodyModel.effect body_off) r
    (TransformBodyModel.text body_off) (TransformBodyModel.rotate body_off).

Definition with_rotate (r : Rotate.t) : TransformBodyModel.t :=
  TransformBodyModel.mk
    (TransformBodyModel.circle body_off) (TransformBodyModel.effect body_off)
    (TransformBodyModel.resize body_off) (TransformBodyModel.text body_off) r.

Definition body_rotate_only : TransformBodyModel.t :=
  with_rotate (Rotate.mk true (Some 400) (Some 45)).

Definition body_resize_both : TransformBodyModel.t :=
  with_resize (Resize.mk true true true (Some 400) (Some 400)).

Definition body_resize_crop : TransformBodyModel.t :=
  with_resize (Resize.mk true true false (Some 400) (Some 400)).

Definition body_resize_no_width : TransformBodyModel.t :=
  with_resize (Resize.mk true true false (Some 400) None).


Definition body_effect_none : TransformBodyModel.t :=
  with_effect (Effect.mk true false false false false).

(** An image service that answers with a URL under a fixed prefix. *)
Definition demo_build_url (public_id : option string)
           (options : list (string * pyval)) : string :=
  ("https://res.cloudinary.com/demo/image/upload/" ++ fmt_str public_id)%string.

(** A rasteriser that writes the PNG signature and refuses data beyond
    1273 characters, the capacity of the largest QR code at the error
    level that [pyqrcode.create] takes by default. *)
Definition demo_qr_png (data : string) (scale : Z) : option (list Byte.byte) :=
  if (1273 <? String.length data)%nat then None
  else Some [Byte.x89; Byte.x50; Byte.x4e; Byte.x47; Byte.x0d; Byte.x0a;
             Byte.x1a; Byte.x0a].

(** An image service that writes the string values of the options into
    the URL, ahead of the public identifier. *)
Fixpoint pyval_text (v : pyval) : string :=
  match v with
  | VStr s => s
  | VInt z => str_int z
  | VDict d =>
      (fix fields (d : list (string * pyval)) : string :=
         match d with
         | [] => ""
         | (_, x) :: rest => (pyval_text x ++ "," ++ fields rest)%string
         end) d
  | VList l =>
      (fix items (l : list pyval) : string :=
         match l with
         | [] => ""
         | x :: rest => (pyval_text x ++ "/" ++ items rest)%string
         end) l
  end.

Definition rendering_build_url (public_id : option string)
           (options : list (string * pyval)) : string :=
  ("https://res.cloudinary.com/demo/image/upload/"
   ++ pyval_text (VDict options) ++ fmt_str public_id)%string.

(** A request for a text overlay of 1300 characters. *)
Definition body_long_text : TransformBodyModel.t :=
  TransformBodyModel.mk
    (TransformBodyModel.circle body_off) (TransformBodyModel.effect body_off)
    (TransformBodyModel.resize body_off)
    (Text.mk true (Some 70) (Some (String.concat "" (repeat "0123456789" 130))))
    (TransformBodyModel.rotate body_off).

Definition world_two_fotos : World := mkWorld store_two_fotos [].

Definition carol : User.t := User.mk 4 "carol_moder" moder.


Definition body_effect_blur : TransformBodyModel.t :=
  with_effect (Effect.mk true false false true false).

(** * Lemmas on queries *)

Section Queries.

Context {A : Type}.
Variable p : A -> bool.

Lemma first_Some_In (rows : list A) (x : A) :
  first p rows = Some x -> In x rows /\ p x = true.
Proof.
  induction rows as [|r rest IH]; simpl; [discriminate|].
  destruct (p r) eqn:E.
  - intros [= <-]. auto.
  - intros H. destruct (IH H). auto.
Qed.

Lemma first_None_iff (rows : list A) :
  first p rows = None <-> forall x, In x rows -> p x = false.
Proof.
  induction rows as [|r rest IH]; simpl.
  - split; [intros _ x []|reflexivity].
  - destruct (p r) eqn:E.
    + split; [discriminate|]. intros H. rewrite (H r) in E by auto. discriminate.
    + rewrite IH. split.
      * intros H x [<-|Hx]; auto.
      * intros H x Hx. auto.
Qed.

Lemma In_first_truthy (rows : list A) (x : A) :
  In x rows -> p x = true -> truthy_obj (first p rows) = true.
Proof.
  intros Hin Hp. destruct (first p rows) eqn:E; [reflexivity|].
  rewrite first_None_iff in E. rewrite (E x Hin) in Hp. discriminate.
Qed.

Lemma first_app_Some (rows more : list A) (x : A) :
  first p rows = Some x -> first p (rows ++ more) = Some x.
Proof.
  induction rows as [|r rest IH]; simpl; [discriminate|].
  destruct (p r); auto.
Qed.

Lemma first_app_None (rows more : list A) :
  first p rows = None -> first p (rows ++ more) = first p more.
Proof.
  induction rows as [|r rest IH]; simpl; [reflexivity|].
  destruct (p r); [discriminate|auto].
Qed.

Lemma first_update_first (f : A -> A) (rows : list A) (x : A) :
  first p rows = Some x -> p (f x) = true ->
  first p (update_first p f rows) = Some (f x).
Proof.
  induction rows as [|r rest IH]; simpl; [discriminate|].
  destruct (p r) eqn:E.
  - intros [= ->] Hf. simpl. now rewrite Hf.
  - intros H Hf. simpl. rewrite E. auto.
Qed.

Lemma update_first_None (f : A -> A) (rows : list A) :
  first p rows = None -> update_first p f rows = rows.
Proof.
  induction rows as [|r rest IH]; simpl; [reflexivity|].
  destruct (p r); [discriminate|]. intros H. now rewrite IH.
Qed.

Lemma In_update_first (f : A -> A) (rows : list A) (y : A) :
  In y (update_first p f rows) ->
  In y rows \/ exists x, In x rows /\ y = f x.
Proof.
  induction rows as [|r rest IH]; simpl; [tauto|].
  destruct (p r); simpl.
  - intros [<-|H]; [right; exists r|left]; auto.
  - intros [<-|H]; [auto|]. destruct (IH H) as [?|(x & ? & ?)]; [auto|].
    right. exists x. auto.
Qed.

Lemma In_delete_first (rows : list A) (y : A) :
  In y (delete_first p rows) -> In y rows.
Proof.
  induction rows as [|r rest IH]; simpl; [tauto|].
  destruct (p r); simpl; [auto|]. intros [<-|H]; auto.
Qed.

End Queries.

Lemma col_eqb_true (c : option Z) (v : Z) : col_eqb c v = true <-> c = Some v.
Proof.
  destruct c as [x|]; simpl.
  - rewrite Z.eqb_eq. split; [intros ->; reflexivity|intros [= ->]; reflexivity].
  - split; discriminate.
Qed.

(** * Rating engine *)

Lemma is_self_foto_owns (db : Store) (u : User.t) (foto_id : Z) :
  truthy_obj (Ratings.is_self_foto foto_id u db) = true <-> owns db u foto_id.
Proof.
  unfold Ratings.is_self_foto, owns. split.
  - destruct (first _ _) as [f|] eqn:E; [intros _|discriminate].
    apply first_Some_In in E. destruct E as [Hin Hp].
    apply andb_true_iff in Hp. destruct Hp as [H1 H2].
    exists f. rewrite Z.eqb_eq in H1. rewrite col_eqb_true in H2. auto.
  - intros (f & Hin & Hid & Hu). eapply In_first_truthy; [exact Hin|].
    simpl. rewrite Hid, Z.eqb_refl, Hu. simpl. apply Z.eqb_refl.
Qed.

Lemma already_voted_voted (db : Store) (u : User.t) (foto_id : Z) :
  truthy_obj (Ratings.already_voted foto_id u db) = true <-> voted db u foto_id.
Proof.
  unfold Ratings.already_voted, voted. split.
  - destruct (first _ _) as [r|] eqn:E; [intros _|discriminate].
    apply first_Some_In in E. destruct E as [Hin Hp].
    apply andb_true_iff in Hp. destruct Hp as [H1 H2].
    exists r. rewrite Z.eqb_eq in H1. rewrite col_eqb_true in H2. auto.
  - intros (r & Hin & Hid & Hu). eapply In_first_truthy; [exact Hin|].
    simpl. rewrite Hid, Z.eqb_refl, Hu. simpl. apply Z.eqb_refl.
Qed.

Lemma foto_exists_photo_exists (db : Store) (foto_id : Z) :
  truthy_obj (Ratings.foto_exists foto_id db) = true <-> photo_exists db foto_id.
Proof.
  unfold Ratings.foto_exists, photo_exists. split.
  - destruct (first _ _) as [f|] eqn:E; [intros _|discriminate].
    apply first_Some_In in E. destruct E as [Hin Hp].
    exists f. rewrite Z.eqb_eq in Hp. auto.
  - intros (f & Hin & Hid). eapply In_first_truthy; [exact Hin|].
    simpl. rewrite Hid. apply Z.eqb_refl.
Qed.

Lemma not_truthy_iff (b : bool) (P : Prop) :
  (b = true <-> P) -> (b = false <-> ~ P).
Proof.
  intros [H1 H2]. destruct b; split; intros H; try discriminate; auto.
  - exfalso. auto.
  - intros HP. specialize (H2 HP). discriminate.
Qed.

(** C1.  The checks of [create_rate] run in the order self-vote, duplicate
    vote, not-found.  In every store: if the rater owns the photo the call
    raises SelfVoteError (423, OWN_FOTO), whether or not a vote of that
    rater exists; if the rater does not own the photo and a Rating exists
    for the (photo, rater) pair, the call raises DuplicateVoteError (423,
    VOTE_TWICE), whether or not a photo with that id exists.  The store is
    left as it was in both cases. *)
Theorem create_rate_check_order (now foto_id rate : Z) (db : Store) (u : User.t) :
  (owns db u foto_id ->
   Ratings.create_rate now foto_id rate db u = (Raise SelfVoteError, db))
  /\ (~ owns db u foto_id -> voted db u foto_id ->
      Ratings.create_rate now foto_id rate db u = (Raise DuplicateVoteError, db)).
Proof.
  unfold Ratings.create_rate. split.
  - intros H. apply is_self_foto_owns in H. now rewrite H.
  - intros Hn Hv.
    apply (not_truthy_iff _ _ (is_self_foto_owns db u foto_id)) in Hn.
    apply already_voted_voted in Hv. now rewrite Hn, Hv.
Qed.

Lemma create_rate_check_order_witness :
  (owns store_with_stale_votes alice 1 /\ voted store_with_stale_votes alice 1
   /\ Ratings.create_rate 0 1 4 store_with_stale_votes alice
      = (Raise SelfVoteError, store_with_stale_votes))
  /\ (~ owns store_with_stale_votes bob 5
      /\ ~ photo_exists store_with_stale_votes 5
      /\ voted store_with_stale_votes bob 5
      /\ Ratings.create_rate 0 5 4 store_with_stale_votes bob
         = (Raise DuplicateVoteError, store_with_stale_votes)).
Proof.
  assert (O1 : owns store_with_stale_votes alice 1).
  { exists (sample_foto 1 1). simpl. auto. }
  assert (V1 : voted store_with_stale_votes alice 1).
  { exists (Rating.mk 1 5 0 1 (Some 1)). simpl. auto. }
  assert (N5 : ~ photo_exists store_with_stale_votes 5).
  { intros (f & [<-|[]] & Hid). discriminate Hid. }
  assert (O5 : ~ owns store_with_stale_votes bob 5).
  { intros (f & Hin & Hid & _). apply N5. exists f. auto. }
  assert (V5 : voted store_with_stale_votes bob 5).
  { exists (Rating.mk 2 3 0 5 (Some 2)). simpl. auto. }
  split.
  - refine (conj O1 (conj V1 _)).
    exact (proj1 (create_rate_check_order 0 1 4 store_with_stale_votes alice) O1).
  - refine (conj O5 (conj N5 (conj V5 _))).
    exact (proj2 (create_rate_check_order 0 5 4 store_with_stale_votes bob) O5 V5).
Defined.

(** A second vote on the same photo by the same rater is refused as a
    duplicate, whatever the two values. *)
Lemma create_rate_twice (now now' foto_id rate rate' : Z) (db : Store)
      (u : User.t) (r : Rating.t) (db' : Store) :
  Ratings.create_rate now foto_id rate db u = (Return (Some r), db') ->
  Ratings.create_rate now' foto_id rate' db' u = (Raise DuplicateVoteError, db').
Proof.
  unfold Ratings.create_rate at 1.
  destruct (truthy_obj (Ratings.is_self_foto foto_id u db)) eqn:Ho; [discriminate|].
  destruct (truthy_obj (Ratings.already_voted foto_id u db)); [discriminate|].
  destruct (truthy_obj (Ratings.foto_exists foto_id db)); [|discriminate].
  intros [= <- <-].
  unfold Ratings.create_rate.
  assert (Hown : truthy_obj (Ratings.is_self_foto foto_id u
                   (set_ratings (ratings db ++ [Rating.mk
                      (fresh_id (map Rating.id (ratings db))) rate now foto_id
                      (Some (User.id u))]) db)) = false) by exact Ho.
  rewrite Hown.
  assert (Hv : truthy_obj (Ratings.already_voted foto_id u
                   (set_ratings (ratings db ++ [Rating.mk
                      (fresh_id (map Rating.id (ratings db))) rate now foto_id
                      (Some (User.id u))]) db)) = true).
  { apply already_voted_voted. eexists.
    split; [simpl; apply in_or_app; right; left; reflexivity|]. simpl. auto. }
  now rewrite Hv.
Qed.

(** C2 as stated fails on the code: with no photo 3 and no vote on it,
    [create_rate] raises nothing and returns [None]. *)
Lemma create_rate_missing_photo_is_silent :
  ~ photo_exists store_two_fotos 3
  /\ ~ voted store_two_fotos alice 3
  /\ fst (Ratings.create_rate 0 3 3 store_two_fotos alice) = Return None
  /\ fst (Ratings.create_rate 0 3 3 store_two_fotos alice) <> Raise NotFoundError.
Proof.
  split; [|split; [|split]].
  - intros (f & [<-|[<-|[]]] & Hid); discriminate Hid.
  - intros (r & [] & _).
  - reflexivity.
  - discriminate.
Qed.

(** C2, amended.  In every store with no photo of the given id and no
    Rating for the (photo, rater) pair, [create_rate] raises no error: it
    returns [None] and leaves the store as it was. *)
Theorem create_rate_missing_photo (now foto_id rate : Z) (db : Store) (u : User.t) :
  ~ photo_exists db foto_id -> ~ voted db u foto_id ->
  Ratings.create_rate now foto_id rate db u = (Return None, db).
Proof.
  intros He Hv. unfold Ratings.create_rate.
  assert (Ho : ~ owns db u foto_id).
  { intros (f & Hin & Hid & _). apply He. exists f. auto. }
  apply (not_truthy_iff _ _ (is_self_foto_owns db u foto_id)) in Ho.
  apply (not_truthy_iff _ _ (already_voted_voted db u foto_id)) in Hv.
  apply (not_truthy_iff _ _ (foto_exists_photo_exists db foto_id)) in He.
  now rewrite Ho, Hv, He.
Qed.

Lemma create_rate_missing_photo_witness :
  Ratings.create_rate 0 3 3 store_two_fotos alice = (Return None, store_two_fotos).
Proof.
  apply (create_rate_missing_photo 0 3 3 store_two_fotos alice).
  - intros (f & [<-|[<-|[]]] & Hid); discriminate Hid.
  - intros (r & [] & _).
Defined.

(** The 404 of a vote on a missing photo comes from the route, which turns
    the empty result of [create_rate] into NotFoundError. *)
Lemma route_create_rate_missing_photo (now foto_id rate : Z) (db : Store)
      (u : User.t) :
  ~ photo_exists db foto_id -> ~ voted db u foto_id ->
  Ratings.route_create_rate now foto_id rate db u = (Raise NotFoundError, db).
Proof.
  intros He Hv. unfold Ratings.route_create_rate, Ratings.create_rate.
  assert (Ho : ~ owns db u foto_id).
  { intros (f & Hin & Hid & _). apply He. exists f. auto. }
  apply (not_truthy_iff _ _ (is_self_foto_owns db u foto_id)) in Ho.
  apply (not_truthy_iff _ _ (already_voted_voted db u foto_id)) in Hv.
  apply (not_truthy_iff _ _ (foto_exists_photo_exists db foto_id)) in He.
  now rewrite Ho, Hv, He.
Qed.

(** [edit_rate], case by case. *)
Section EditRate.

Variables (rate_id new_rate : Z) (db : Store) (u : User.t).

Let by_id := fun r : Rating.t => Rating.id r =? rate_id.

Lemma privileged_dec : {privileged u} + {User.role u = user}.
Proof.
  unfold privileged. destruct (User.role u); [right|left|left]; auto.
Qed.

(** Admin, moderator or original rater: the rate is updated in place. *)
Lemma edit_rate_permitted_updates (r : Rating.t) :
  first by_id (ratings db) = Some r ->
  privileged u \/ Rating.user_id r = Some (User.id u) ->
  exists db',
    Ratings.edit_rate rate_id new_rate db u
    = (Return (Some (Rating.set_rate new_rate r)), db')
    /\ first by_id (ratings db') = Some (Rating.set_rate new_rate r)
    /\ fotos db' = fotos db /\ tags db' = tags db
    /\ List.length (ratings db') = List.length (ratings db).
Proof.
  intros Hr Hperm. unfold Ratings.edit_rate, Ratings.edit_rate_permitted.
  fold by_id. rewrite Hr.
  assert (Hc : (if role_eqb (User.role u) admin || role_eqb (User.role u) moder
                then Return true
                else Return (col_eqb (Rating.user_id r) (User.id u)))
               = Return true).
  { destruct Hperm as [[H|H]|H].
    - now rewrite H.
    - now rewrite H.
    - apply col_eqb_true in H. rewrite H. now destruct (_ || _). }
  rewrite Hc. eexists. split; [reflexivity|]. simpl.
  split; [|split; [reflexivity|split; [reflexivity|]]].
  - apply first_update_first; [exact Hr|].
    apply first_Some_In in Hr. exact (proj2 Hr).
  - clear. induction (ratings db) as [|x l IH]; simpl; [reflexivity|].
    destruct (by_id x); simpl; congruence.
Qed.

(** An existing rating and an actor without permission: nothing changes,
    nothing is raised, and the rating is returned as it is. *)
Lemma edit_rate_denied_noop (r : Rating.t) :
  first by_id (ratings db) = Some r ->
  User.role u = user -> Rating.user_id r <> Some (User.id u) ->
  Ratings.edit_rate rate_id new_rate db u = (Return (Some r), db).
Proof.
  intros Hr Hrole Hother. unfold Ratings.edit_rate, Ratings.edit_rate_permitted.
  fold by_id. rewrite Hr, Hrole. simpl.
  destruct (col_eqb (Rating.user_id r) (User.id u)) eqn:E; [|reflexivity].
  apply col_eqb_true in E. contradiction.
Qed.

(** A missing rating and an admin or moderator: [None], no change. *)
Lemma edit_rate_missing_privileged :
  first by_id (ratings db) = None -> privileged u ->
  Ratings.edit_rate rate_id new_rate db u = (Return None, db).
Proof.
  intros Hr Hp. unfold Ratings.edit_rate, Ratings.edit_rate_permitted.
  fold by_id. rewrite Hr. destruct Hp as [H|H]; now rewrite H.
Qed.

(** A missing rating and a plain user: the ownership test reads
    [rate.user_id] on [None], and the call raises. *)
Lemma edit_rate_missing_plain_user :
  first by_id (ratings db) = None -> User.role u = user ->
  Ratings.edit_rate rate_id new_rate db u
  = (Raise (AttributeError "'NoneType' object has no attribute 'user_id'"), db).
Proof.
  intros Hr Hrole. unfold Ratings.edit_rate, Ratings.edit_rate_permitted.
  fold by_id. now rewrite Hr, Hrole.
Qed.

End EditRate.

(** C3.  Editing a vote does raise in one of the cases the claim lists as
    silent: rating 2 does not exist, alice is a plain user, and [edit_rate]
    ends in AttributeError instead of returning [None]. *)
Theorem edit_rate_missing_rating_raises :
  User.role alice = user
  /\ first (fun r => Rating.id r =? 2) (ratings store_one_vote) = None
  /\ Ratings.edit_rate 2 3 store_one_vote alice
     = (Raise (AttributeError "'NoneType' object has no attribute 'user_id'"),
        store_one_vote).
Proof.
  split; [reflexivity|]. split; reflexivity.
Qed.

(** * Transformation compiler *)

Import TransformBodyModel.

(** C4 as stated fails on the code: with crop and fill both set the resize
    group is not skipped; it emits one operation, in fill mode. *)
Lemma resize_crop_and_fill_emits :
  Resize.crop (resize body_resize_both) = true
  /\ Resize.fill (resize body_resize_both) = true
  /\ TransformFoto.resize_ops body_resize_both
     = [resize_op (resize body_resize_both) "fill"]
  /\ TransformFoto.transformation body_resize_both
     = [VDict [("gravity", VStr "auto"); ("height", VStr "400");
               ("width", VStr "400"); ("crop", VStr "fill")]].
Proof.
repeat apply conj; reflexivity.
Qed.

(** C4, amended.  When the width is present, the resize group emits its
    single auto-gravity operation exactly when its enable flag is set, the
    height is present and at least one of crop and fill is set; the mode is
    fill whenever fill is set, crop otherwise.  In every other case with
    the width present it emits nothing. *)
Theorem resize_ops_when_width_present (body : TransformBodyModel.t) :
  truthy_int (Resize.width (resize body)) = true ->
  let r := resize body in
  let qualifies :=
    Resize.use_filter r = true /\ truthy_int (Resize.height r) = true
    /\ (Resize.crop r = true \/ Resize.fill r = true) in
  (qualifies ->
   TransformFoto.resize_ops body
   = [resize_op r (if Resize.fill r then "fill" else "crop")])
  /\ (~ qualifies -> TransformFoto.resize_ops body = []).
Proof.
intros _ r qualifies. subst qualifies. unfold TransformFoto.resize_ops.
fold r. unfold TransformFoto.resolved_crop, resize_op.
destruct (Resize.use_filter r), (truthy_int (Resize.height r)),
         (Resize.crop r), (Resize.fill r); simpl; split;
  try reflexivity; try (intros (? & ? & [?|?]); discriminate);
  intros H; exfalso; apply H; auto.
Qed.

Lemma resize_ops_when_width_present_witness :
  TransformFoto.resize_ops body_resize_crop
  = [resize_op (resize body_resize_crop) "crop"]
  /\ TransformFoto.resize_ops body_off = [].
Proof.
split.
- apply (resize_ops_when_width_present body_resize_crop); [reflexivity|].
  simpl. auto.
- apply (resize_ops_when_width_present body_off); [reflexivity|].
  simpl. intros (H & _). discriminate H.
Defined.

(** The guard of the resize group does not read the width: a request
    without one still gets its operation, with the width printed as
    "None". *)
Lemma resize_without_width_emits :
  truthy_int (Resize.width (resize body_resize_no_width)) = false
  /\ TransformFoto.resize_ops body_resize_no_width
     = [VDict [("gravity", VStr "auto"); ("height", VStr "400");
               ("width", VStr "None"); ("crop", VStr "crop")]].
Proof.
split; reflexivity.
Qed.

(** C5.  With the rotate group enabled and width and degree present, the
    group emits exactly three operations, in the order scale-to-width,
    vertical flip, rotate-by-degree; they close the compiled list, after
    whatever the four earlier groups emitted. *)
Theorem rotate_emits_three (body : TransformBodyModel.t) :
  Rotate.use_filter (rotate body) = true ->
  truthy_int (Rotate.width (rotate body)) = true ->
  truthy_int (Rotate.degree (rotate body)) = true ->
  let three := [scale_to_width (Rotate.width (rotate body));
                vertical_flip;
                rotate_by (Rotate.degree (rotate body))] in
  TransformFoto.rotate_ops body = three
  /\ TransformFoto.transformation body
     = TransformFoto.circle_ops body ++ TransformFoto.effect_ops body
       ++ TransformFoto.resize_ops body ++ TransformFoto.text_ops body
       ++ three.
Proof.
intros Hf Hw Hd three.
assert (E : TransformFoto.rotate_ops body = three).
{ unfold TransformFoto.rotate_ops. now rewrite Hf, Hw, Hd. }
split; [exact E|].
unfold TransformFoto.transformation. rewrite E.
simpl. now rewrite <- !app_assoc.
Qed.

Lemma rotate_emits_three_witness :
  TransformFoto.transformation body_rotate_only
  = [VDict [("width", VStr "400"); ("crop", VStr "scale")];
     VDict [("angle", VStr "vflip")];
     VDict [("angle", VStr "45")]].
Proof.
exact (proj2 (rotate_emits_three body_rotate_only eq_refl eq_refl eq_refl)).
Defined.



Lemma all_flags_off_compiles_to_nothing (body : TransformBodyModel.t) :
  all_flags_off body -> TransformFoto.transformation body = [].
Proof.
intros (Hc & He & Hr & Ht & Ho).
unfold TransformFoto.transformation, TransformFoto.circle_ops,
  TransformFoto.effect_ops, TransformFoto.resize_ops, TransformFoto.text_ops,
  TransformFoto.rotate_ops.
now rewrite Hc, He, Hr, Ht, Ho.
Qed.

Lemma owned_by_set_transform_url (foto_id : Z) (u : User.t) (url : option string)
      (f : Foto.t) :
  TransformFoto.owned_by foto_id u (Foto.set_transform_url url f)
  = TransformFoto.owned_by foto_id u f.
Proof. reflexivity. Qed.

Section TransformMetod.

Variable build_url : option string -> list (string * pyval) -> string.

(** C7.  For a photo owned by the requester: a request with every enable
    flag off compiles to the empty list; with an empty list
    [transform_metod] returns the photo as it is and leaves the store and
    the log of calls to the image service untouched; with a non-empty list
    it asks the image service for the URL of the list under the photo's
    public identifier, returns the photo with that URL as transform URL and
    every other field as before, and the stored row is that photo. *)
Theorem transform_metod_frame (foto_id : Z) (body : TransformBodyModel.t)
        (u : User.t) (w : World) (foto : Foto.t) :
  first (TransformFoto.owned_by foto_id u) (fotos (db w)) = Some foto ->
  (all_flags_off body -> TransformFoto.transformation body = [])
  /\ (TransformFoto.transformation body = [] ->
      TransformFoto.transform_metod build_url foto_id body u w = (Some foto, w))
  /\ (TransformFoto.transformation body <> [] ->
      let options := [("transformation", VList (TransformFoto.transformation body))] in
      let url := build_url (Foto.public_id foto) options in
      let foto' := Foto.set_transform_url (Some url) foto in
      exists w',
        TransformFoto.transform_metod build_url foto_id body u w = (Some foto', w')
        /\ first (TransformFoto.owned_by foto_id u) (fotos (db w')) = Some foto'
        /\ cloud w' = cloud w ++ [InitCloudinary;
                                  BuildUrl (Foto.public_id foto) options]
        /\ tags (db w') = tags (db w) /\ ratings (db w') = ratings (db w)
        /\ Foto.transform_url foto' = Some url
        /\ foto' = Foto.mk (Foto.id foto) (Foto.image_url foto) (Some url)
                           (Foto.title foto) (Foto.descr foto)
                           (Foto.created_at foto) (Foto.updated_at foto)
                           (Foto.tags foto) (Foto.done foto) (Foto.user_id foto)
                           (Foto.public_id foto)).
Proof.
intros Hfoto. split; [apply all_flags_off_compiles_to_nothing|]. split.
- intros Hnil. unfold TransformFoto.transform_metod. now rewrite Hfoto, Hnil.
- intros Hops options url foto'. unfold TransformFoto.transform_metod.
  rewrite Hfoto. destruct (TransformFoto.transformation body) as [|op ops] eqn:E;
    [contradiction|].
  simpl truthy_list. cbv iota. eexists. split; [reflexivity|].
  simpl. split.
  + apply first_update_first; [exact Hfoto|].
    rewrite owned_by_set_transform_url.
    apply first_Some_In in Hfoto. exact (proj2 Hfoto).
  + repeat apply conj; reflexivity.
Qed.

End TransformMetod.

Lemma transform_metod_frame_witness :
  TransformFoto.transform_metod demo_build_url 1 body_off alice world_two_fotos
  = (Some (sample_foto 1 1), world_two_fotos)
  /\ exists w',
      TransformFoto.transform_metod demo_build_url 1 body_rotate_only alice
                                    world_two_fotos
      = (Some (Foto.set_transform_url
                 (Some "https://res.cloudinary.com/demo/image/upload/888")
                 (sample_foto 1 1)), w')
      /\ first (TransformFoto.owned_by 1 alice) (fotos (db w'))
         = Some (Foto.set_transform_url
                   (Some "https://res.cloudinary.com/demo/image/upload/888")
                   (sample_foto 1 1)).
Proof.
pose proof (transform_metod_frame demo_build_url 1 body_off alice
              world_two_fotos (sample_foto 1 1) eq_refl) as Hoff.
pose proof (transform_metod_frame demo_build_url 1 body_rotate_only alice
              world_two_fotos (sample_foto 1 1) eq_refl) as Hrot.
split.
- apply Hoff. apply Hoff. repeat apply conj; reflexivity.
- destruct Hrot as (_ & _ & Hrot).
  destruct Hrot as (w' & Hrun & Hrow & _); [discriminate|].
  exists w'. split; [exact Hrun|exact Hrow].
Defined.

(** * Tag resolver *)

Section TagResolver.

Let has_title (t : string) := fun g : Tag.t => (Tag.title g =? t)%string.

Lemma count_title_app (t : string) (rows more : list Tag.t) :
  count_title t (rows ++ more) = (count_title t rows + count_title t more)%nat.
Proof.
unfold count_title. now rewrite filter_app, length_app.
Qed.

Lemma first_title_None_count (t : string) (rows : list Tag.t) :
  first (has_title t) rows = None <-> count_title t rows = 0%nat.
Proof.
unfold count_title. fold (has_title t).
induction rows as [|g rest IH]; simpl; [tauto|].
destruct (has_title t g); simpl; [split; discriminate|exact IH].
Qed.

Lemma first_title_Some_count (t : string) (rows : list Tag.t) (g : Tag.t) :
  first (has_title t) rows = Some g -> (1 <= count_title t rows)%nat.
Proof.
intros H. destruct (count_title t rows) eqn:E; [|lia].
apply first_title_None_count in E. congruence.
Qed.

Lemma get_tags_cons (now : Z) (t : string) (rest : list string) (u : User.t)
      (db : Store) :
  Fotos.get_tags now (t :: rest) u db
  = (let (tag, db1) := Tags.create_tag now t u db in
     let (found, db2) := Fotos.get_tags now rest u db1 in
     (tag :: found, db2)).
Proof. reflexivity. Qed.

(** One resolution: the tag returned is afterwards the first row with the
    title, and it carries the title. *)
Lemma create_tag_first (now : Z) (t : string) (u : User.t) (db : Store) :
  first (has_title t) (tags (snd (Tags.create_tag now t u db)))
  = Some (fst (Tags.create_tag now t u db))
  /\ Tag.title (fst (Tags.create_tag now t u db)) = t.
Proof.
unfold Tags.create_tag. fold (has_title t).
destruct (first (has_title t) (tags db)) as [g|] eqn:E; simpl.
- split; [exact E|]. apply first_Some_In in E. destruct E as [_ E].
  unfold has_title in E. now apply String.eqb_eq in E.
- split; [|reflexivity]. rewrite first_app_None by exact E.
  simpl. unfold has_title at 1. simpl. now rewrite String.eqb_refl.
Qed.

(** One resolution only appends to the Tag table, and touches no other. *)
Lemma create_tag_extends (now : Z) (t : string) (u : User.t) (db : Store) :
  exists ext, tags (snd (Tags.create_tag now t u db)) = tags db ++ ext
              /\ fotos (snd (Tags.create_tag now t u db)) = fotos db
              /\ ratings (snd (Tags.create_tag now t u db)) = ratings db.
Proof.
unfold Tags.create_tag.
destruct (first _ (tags db)); simpl.
- exists []. now rewrite app_nil_r.
- eexists. repeat apply conj; reflexivity.
Qed.

Lemma create_tag_count (now : Z) (t t' : string) (u : User.t) (db : Store) :
  count_title t' (tags (snd (Tags.create_tag now t u db)))
  = if ((count_title t (tags db) =? 0)%nat && (t =? t')%string)%bool
    then 1%nat else count_title t' (tags db).
Proof.
unfold Tags.create_tag. fold (has_title t).
destruct (first (has_title t) (tags db)) as [g|] eqn:E; simpl.
- apply first_title_Some_count in E.
  destruct (count_title t (tags db)); [lia|reflexivity].
- rewrite count_title_app. apply first_title_None_count in E. rewrite E. simpl.
  unfold count_title at 2. simpl.
  destruct (t =? t')%string eqn:Et; simpl.
  + apply String.eqb_eq in Et. subst t'. rewrite E. reflexivity.
  + lia.
Qed.

Lemma get_tags_extends (now : Z) (l : list string) (u : User.t) (db : Store) :
  exists ext, tags (snd (Fotos.get_tags now l u db)) = tags db ++ ext
              /\ fotos (snd (Fotos.get_tags now l u db)) = fotos db
              /\ ratings (snd (Fotos.get_tags now l u db)) = ratings db.
Proof.
revert db. induction l as [|t rest IH]; intros db.
- exists []. simpl. now rewrite app_nil_r.
- rewrite get_tags_cons.
  destruct (Tags.create_tag now t u db) as [tag db1] eqn:E1.
  destruct (create_tag_extends now t u db) as (e1 & H1 & H2 & H3).
  rewrite E1 in H1, H2, H3. simpl in H1, H2, H3.
  destruct (IH db1) as (e2 & K1 & K2 & K3).
  destruct (Fotos.get_tags now rest u db1) as [found db2]. simpl in *.
  exists (e1 ++ e2). rewrite K1, K2, K3, H1, H2, H3.
  now rewrite app_assoc.
Qed.

(** Resolving a list creates a row for a title only if the title is in
    the list and no row has it yet, and then exactly one. *)
Lemma get_tags_count (now : Z) (l : list string) (t' : string) (u : User.t)
      (db : Store) :
  count_title t' (tags (snd (Fotos.get_tags now l u db)))
  = if ((count_title t' (tags db) =? 0)%nat
        && existsb (fun t => (t =? t')%string) l)%bool
    then 1%nat else count_title t' (tags db).
Proof.
revert db. induction l as [|t rest IH]; intros db.
- simpl. now rewrite andb_false_r.
- rewrite get_tags_cons.
  destruct (Tags.create_tag now t u db) as [tag db1] eqn:E1.
  pose proof (create_tag_count now t t' u db) as Hc.
  rewrite E1 in Hc. simpl in Hc.
  specialize (IH db1).
  destruct (Fotos.get_tags now rest u db1) as [found db2]. simpl in *.
  rewrite IH, Hc. clear IH Hc E1.
  destruct (t =? t')%string eqn:Et; simpl.
  + apply String.eqb_eq in Et. subst t'.
    destruct (count_title t (tags db)); simpl; [reflexivity|].
    reflexivity.
  + rewrite andb_false_r. reflexivity.
Qed.

End TagResolver.

(** [get_tags] on a single title is [create_tag]. *)
Lemma get_tags_singleton (now : Z) (t : string) (u : User.t) (db : Store) :
  Fotos.get_tags now [t] u db
  = ([fst (Tags.create_tag now t u db)], snd (Tags.create_tag now t u db)).
Proof.
rewrite get_tags_cons. now destruct (Tags.create_tag now t u db).
Qed.

(** * Photo creation *)

Section CreateFoto.

Variable build_url : option string -> list (string * pyval) -> string.

Lemma get_tags_fotos (now : Z) (l : list string) (u : User.t) (db : Store) :
  fotos (snd (Fotos.get_tags now l u db)) = fotos db.
Proof.
destruct (get_tags_extends now l u db) as (ext & _ & H & _). exact H.
Qed.

(** What [create_foto] stores in the new row: the same rendered URL twice,
    the creator as owner, and one of two public identifiers. *)
Lemma create_foto_row (now : Z) (title descr : string) (tags : list string)
      (file : string) (w : World) (u : User.t) :
  let foto := fst (Fotos.create_foto build_url now title descr tags file w u) in
  let owns_first :=
    truthy_obj (first (fun f => col_eqb (Foto.user_id f) (User.id u)
                                && (Foto.id f =? 1)) (fotos (db w))) in
  let public_id := if owns_first then "PhotoShake/2" else "PhotoShake/1" in
  Foto.public_id foto = Some public_id
  /\ Foto.image_url foto = Some (build_url (Some public_id) Fotos.thumbnail_options)
  /\ Foto.transform_url foto = Foto.image_url foto
  /\ Foto.user_id foto = Some (User.id u)
  /\ fotos (db (snd (Fotos.create_foto build_url now title descr tags file w u)))
     = fotos (db w) ++ [foto].
Proof.
unfold Fotos.create_foto.
destruct tags as [|tag0 more].
- simpl. destruct (truthy_obj _); repeat apply conj; reflexivity.
- pose proof (get_tags_fotos now (split "," tag0) u (db w)) as Hf.
  destruct (Fotos.get_tags now (split "," tag0) u (db w)) as [tag_rows db1].
  simpl in Hf. simpl. rewrite Hf.
  destruct (truthy_obj _); repeat apply conj; reflexivity.
Qed.

(** C9.  Public identifiers repeat for one owner: bob, who does not own
    photo 1, creates two photos one after the other; they get distinct ids
    and the same public identifier "PhotoShake/1". *)
Theorem create_foto_repeats_public_id :
  let r1 := Fotos.create_foto build_url 10 "dawn" "first" [] "jpeg-1"
                              world_two_fotos bob in
  let r2 := Fotos.create_foto build_url 11 "dusk" "second" [] "jpeg-2"
                              (snd r1) bob in
  Foto.user_id (fst r1) = Some (User.id bob)
  /\ Foto.user_id (fst r2) = Some (User.id bob)
  /\ Foto.id (fst r1) = 3 /\ Foto.id (fst r2) = 4
  /\ Foto.public_id (fst r1) = Some "PhotoShake/1"
  /\ Foto.public_id (fst r2) = Some "PhotoShake/1"
  /\ In (fst r1) (fotos (db (snd r2))) /\ In (fst r2) (fotos (db (snd r2))).
Proof.
repeat apply conj; try reflexivity; simpl; tauto.
Qed.

End CreateFoto.

(** * QR renderer *)

Lemma truthy_str_Some (s : string) : truthy_str (Some s) = true <-> s <> "".
Proof.
simpl. destruct (s =? "")%string eqn:E; simpl.
- apply String.eqb_eq in E. split; [discriminate|congruence].
- apply String.eqb_neq in E. tauto.
Qed.

Lemma b64encode_nonempty (bs : list Byte.byte) : bs <> [] -> b64encode bs <> "".
Proof.
destruct bs as [|a [|b [|c rest]]]; [congruence| | |]; intros _; discriminate.
Qed.

Section QR.

Variable build_url : option string -> list (string * pyval) -> string.
Variable qr_png : string -> Z -> option (list Byte.byte).

(** The image service never answers with the empty string. *)
Hypothesis build_url_nonempty : forall public_id options,
  build_url public_id options <> "".

(** The rasteriser never writes an empty image. *)
Hypothesis qr_png_nonempty : forall data scale png,
  qr_png data scale = Some png -> png <> [].

Lemma step_all_transformed (w w' : World) :
  step build_url w w' -> all_transformed w -> all_transformed w'.
Proof.
intros Hstep Hinv.
destruct Hstep as [now title descr tgs file w u | now foto_id body u w
                  | foto_id u w | foto_id body u w | now foto_id rate u w
                  | rate_id new_rate u w | rate_id u w | now title u w].
- (* create_foto *)
  destruct (create_foto_row build_url now title descr tgs file w u)
    as (_ & Himg & Htr & _ & Hrows).
  intros f Hf. rewrite Hrows in Hf. apply in_app_or in Hf.
  destruct Hf as [Hf|[<-|[]]]; [auto|].
  rewrite Htr, Himg. apply truthy_str_Some. apply build_url_nonempty.
- (* update_foto *)
  unfold Fotos.update_foto.
  destruct (first _ (fotos (db w))) as [foto|]; [|exact Hinv].
  destruct (_ || _); [|exact Hinv].
  destruct (truthy_list (FotoUpdate.tags body)).
  + pose proof (get_tags_fotos now (FotoUpdate.tags body) u (db w)) as Hrows.
    destruct (Fotos.get_tags now (FotoUpdate.tags body) u (db w))
      as [tag_rows db1]. simpl in Hrows.
    intros f Hf. simpl in Hf. rewrite Hrows in Hf.
    apply In_update_first in Hf. destruct Hf as [Hf|(x & Hx & ->)]; auto.
    simpl. apply (Hinv x Hx).
  + intros f Hf. simpl in Hf.
    apply In_update_first in Hf. destruct Hf as [Hf|(x & Hx & ->)]; auto.
    simpl. apply (Hinv x Hx).
- (* remove_foto *)
  unfold Fotos.remove_foto.
  destruct (first _ (fotos (db w))) as [foto|]; [|exact Hinv].
  destruct (_ || _); [|exact Hinv].
  destruct (existsb _ (ratings (db w))); [exact Hinv|].
  intros f Hf. simpl in Hf. apply In_delete_first in Hf. auto.
- (* transform_metod *)
  unfold TransformFoto.transform_metod.
  destruct (first _ (fotos (db w))) as [foto|]; [|exact Hinv].
  destruct (truthy_list _); [|exact Hinv].
  intros f Hf. simpl in Hf.
  apply In_update_first in Hf. destruct Hf as [Hf|(x & Hx & ->)]; auto.
  apply truthy_str_Some. apply build_url_nonempty.
- (* create_rate *)
  unfold Ratings.create_rate.
  destruct (truthy_obj _); [exact Hinv|].
  destruct (truthy_obj _); [exact Hinv|].
  destruct (truthy_obj _); exact Hinv.
- (* edit_rate *)
  unfold Ratings.edit_rate.
  destruct (Ratings.edit_rate_permitted _ u) as [[|]|]; try exact Hinv.
  destruct (first _ (ratings (db w))); exact Hinv.
- (* delete_rate *)
  unfold Ratings.delete_rate.
  destruct (first _ (ratings (db w))); exact Hinv.
- (* create_tag *)
  unfold Tags.create_tag.
  destruct (first _ (tags (db w))); exact Hinv.
Qed.

Lemma reachable_all_transformed (w : World) :
  reachable build_url w -> all_transformed w.
Proof.
induction 1 as [|w w' _ IH Hstep].
- intros f [].
- exact (step_all_transformed w w' Hstep IH).
Qed.

(** [show_qr] on an owned photo, by its transform URL. *)
Lemma show_qr_by_url (foto_id : Z) (u : User.t) (w : World) (foto : Foto.t) :
  first (TransformFoto.owned_by foto_id u) (fotos (db w)) = Some foto ->
  TransformFoto.show_qr qr_png foto_id u w
  = match Foto.transform_url foto with
    | Some url =>
        if truthy_str (Some url) then
          match qr_png url 6 with
          | Some png => Return (Some (b64encode png))
          | None => Raise TransformFoto.qr_too_large
          end
        else Return None
    | None => Return None
    end.
Proof.
intros Hfoto. unfold TransformFoto.show_qr. now rewrite Hfoto.
Qed.

(** C10, amended.  Provided the image service renders non-empty URLs and
    the rasteriser non-empty images: [create_foto] stores the same
    non-empty rendered URL as image URL and as transform URL; and in every
    world reached from the empty store by the repository functions, a
    photo owned by the requester has a non-empty transform URL, so that
    [show_qr] never returns nothing for it: it returns the non-empty base64
    text of the QR image of that URL when the URL fits in a QR code, and
    raises the ValueError of the rasteriser when it does not. *)
Theorem created_foto_qr_never_nothing :
  (forall now title descr tags file w u,
     let foto := fst (Fotos.create_foto build_url now title descr tags file w u) in
     Foto.transform_url foto = Foto.image_url foto
     /\ exists url, Foto.transform_url foto = Some url /\ url <> "")
  /\ (forall w, reachable build_url w ->
      forall foto_id u foto,
        first (TransformFoto.owned_by foto_id u) (fotos (db w)) = Some foto ->
        exists url,
          Foto.transform_url foto = Some url /\ url <> ""
          /\ TransformFoto.show_qr qr_png foto_id u w <> Return None
          /\ match qr_png url 6 with
             | Some png =>
                 TransformFoto.show_qr qr_png foto_id u w
                 = Return (Some (b64encode png))
                 /\ b64encode png <> ""
             | None =>
                 TransformFoto.show_qr qr_png foto_id u w
                 = Raise TransformFoto.qr_too_large
             end).
Proof.
split.
- intros now title descr tags file w u foto.
  destruct (create_foto_row build_url now title descr tags file w u)
    as (_ & Himg & Htr & _). fold foto in Himg, Htr.
  split; [exact Htr|]. rewrite Htr, Himg. eexists. split; [reflexivity|].
  apply build_url_nonempty.
- intros w Hreach foto_id u foto Hfoto.
  pose proof (reachable_all_transformed w Hreach foto) as Hurl.
  rewrite (show_qr_by_url foto_id u w foto Hfoto).
  apply first_Some_In in Hfoto. specialize (Hurl (proj1 Hfoto)).
  destruct (Foto.transform_url foto) as [url|]; [|discriminate].
  exists url. split; [reflexivity|]. split; [now apply truthy_str_Some|].
  rewrite Hurl.
  destruct (qr_png url 6) as [png|] eqn:Epng.
  + split; [discriminate|]. split; [reflexivity|].
    apply b64encode_nonempty. exact (qr_png_nonempty _ _ _ Epng).
  + split; [discriminate|reflexivity].
Qed.

End QR.

Lemma rendering_build_url_nonempty (public_id : option string)
      (options : list (string * pyval)) :
  rendering_build_url public_id options <> "".
Proof. discriminate. Qed.

Lemma demo_qr_png_nonempty (data : string) (scale : Z) (png : list Byte.byte) :
  demo_qr_png data scale = Some png -> png <> [].
Proof.
unfold demo_qr_png. destruct (_ <? _)%nat; [discriminate|].
intros [= <-]. discriminate.
Qed.

(** C10 as stated fails on the code: alice creates a photo and asks for a
    text overlay of 1300 characters; the transform URL carries the text,
    does not fit in a QR code, and [show_qr] raises instead of returning a
    string. *)
Lemma qr_of_created_foto_can_raise :
  let w1 := snd (Fotos.create_foto rendering_build_url 0 "cat" "pet" [] "jpeg"
                                   (mkWorld (mkStore [] [] []) []) alice) in
  let w2 := snd (TransformFoto.transform_metod rendering_build_url 1
                                               body_long_text alice w1) in
  reachable rendering_build_url w2
  /\ (exists foto,
        first (TransformFoto.owned_by 1 alice) (fotos (db w2)) = Some foto
        /\ truthy_str (Foto.transform_url foto) = true)
  /\ TransformFoto.show_qr demo_qr_png 1 alice w2
     = Raise TransformFoto.qr_too_large
  /\ ~ (exists s, TransformFoto.show_qr demo_qr_png 1 alice w2 = Return (Some s)
                  /\ s <> "").
Proof.
intros w1 w2.
assert (Hraise : TransformFoto.show_qr demo_qr_png 1 alice w2
                 = Raise TransformFoto.qr_too_large) by (vm_compute; reflexivity).
split; [|split; [|split]].
- apply reachable_step with (w := w1); [|apply step_transform_metod].
  apply reachable_step with (w := mkWorld (mkStore [] [] []) []);
    [apply reachable_empty|apply step_create_foto].
- eexists. split; vm_compute; reflexivity.
- exact Hraise.
- intros (s & Hs & _). rewrite Hraise in Hs. discriminate.
Qed.

Lemma created_foto_qr_never_nothing_witness :
  (forall public_id options, rendering_build_url public_id options <> "")
  /\ (forall data scale png, demo_qr_png data scale = Some png -> png <> [])
  /\ TransformFoto.show_qr demo_qr_png 1 alice
       (snd (Fotos.create_foto rendering_build_url 0 "cat" "pet" ["pets,cats"]
                               "jpeg" (mkWorld (mkStore [] [] []) []) alice))
     = Return (Some "iVBORw0KGgo=")
  /\ TransformFoto.show_qr demo_qr_png 1 alice
       (snd (TransformFoto.transform_metod rendering_build_url 1 body_long_text
               alice
               (snd (Fotos.create_foto rendering_build_url 0 "cat" "pet" []
                       "jpeg" (mkWorld (mkStore [] [] []) []) alice))))
     = Raise TransformFoto.qr_too_large.
Proof.
pose proof (proj2 (created_foto_qr_never_nothing rendering_build_url demo_qr_png
                     rendering_build_url_nonempty demo_qr_png_nonempty)) as H.
refine (conj rendering_build_url_nonempty (conj demo_qr_png_nonempty _)).
split.
- destruct (H _ (reachable_step _ _ _ (reachable_empty _)
                   (step_create_foto rendering_build_url 0 "cat" "pet"
                      ["pets,cats"] "jpeg" (mkWorld (mkStore [] [] []) []) alice))
              1 alice _ eq_refl) as (url & Hurl & _ & _ & Hqr).
  injection Hurl as <-. exact (proj1 Hqr).
- destruct (H _ (reachable_step _ _ _
                   (reachable_step _ _ _ (reachable_empty _)
                      (step_create_foto rendering_build_url 0 "cat" "pet" []
                         "jpeg" (mkWorld (mkStore [] [] []) []) alice))
                   (step_transform_metod rendering_build_url 1 body_long_text
                      alice _))
              1 alice _ eq_refl) as (url & Hurl & _ & _ & Hqr).
  injection Hurl as <-. exact Hqr.
Defined.

(** * Further properties of the rating engine *)

Lemma fresh_id_above (ids : list Z) (x : Z) : In x ids -> x < fresh_id ids.
Proof.
unfold fresh_id. induction ids as [|y ids IH]; cbn [fold_right In]; [tauto|].
intros [->|H]; [lia|]. specialize (IH H). lia.
Qed.

Lemma set_ratings_same (db : Store) : set_ratings (ratings db) db = db.
Proof. now destruct db. Qed.

Section RowLists.

Context {A K : Type}.
Variables (p : A -> bool) (key : A -> K) (f : A -> A).

Lemma map_update_first (rows : list A) :
  (forall x, key (f x) = key x) ->
  map key (update_first p f rows) = map key rows.
Proof.
intros Hk. induction rows as [|r rest IH]; simpl; [reflexivity|].
destruct (p r); simpl; [now rewrite Hk|now rewrite IH].
Qed.

Lemma NoDup_map_delete_first (rows : list A) :
  NoDup (map key rows) -> NoDup (map key (delete_first p rows)).
Proof.
induction rows as [|r rest IH]; simpl; [auto|].
intros H. inversion H as [|? ? Hnotin Hrest]; subst.
destruct (p r); [exact Hrest|]. simpl. constructor; [|auto].
intros Hin. apply Hnotin. apply in_map_iff in Hin.
destruct Hin as (x & Hx & Hin). apply In_delete_first in Hin.
apply in_map_iff. exists x. auto.
Qed.

End RowLists.

Section RowListsBis.

Context {A : Type}.
Variables (p : A -> bool) (f : A -> A).

Lemma In_update_first_other (rows : list A) (x : A) :
  In x rows -> p x = false -> In x (update_first p f rows).
Proof.
induction rows as [|r rest IH]; simpl; [tauto|].
intros [->|Hin] Hp.
- rewrite Hp. now left.
- destruct (p r); [now right|]. right. auto.
Qed.

Lemma delete_first_app_last (rows : list A) (x : A) :
  first p rows = None -> p x = true -> delete_first p (rows ++ [x]) = rows.
Proof.
intros Hnone Hx. induction rows as [|r rest IH]; simpl in *.
- now rewrite Hx.
- destruct (p r); [discriminate|]. now rewrite IH.
Qed.

End RowListsBis.

Lemma NoDup_snoc {K : Type} (l : list K) (x : K) :
  NoDup l -> ~ In x l -> NoDup (l ++ [x]).
Proof.
intros Hl Hx. apply NoDup_app; [exact Hl|repeat constructor; tauto|].
intros a Ha [<-|[]]. auto.
Qed.

Lemma first_delete_first_by_id {A : Type} (id : A -> Z) (x : Z) (rows : list A) :
  NoDup (map id rows) ->
  first (fun r => id r =? x) (delete_first (fun r => id r =? x) rows) = None.
Proof.
induction rows as [|r rest IH]; simpl; [reflexivity|].
intros H. inversion H as [|? ? Hnotin Hrest]; subst.
destruct (id r =? x) eqn:E.
- apply first_None_iff. intros y Hy.
  destruct (id y =? x) eqn:Ey; [|reflexivity].
  apply Z.eqb_eq in E, Ey. exfalso. apply Hnotin. rewrite E, <- Ey.
  now apply in_map.
- simpl. rewrite E. auto.
Qed.

(** What a successful [create_rate] tells about the store it ran in. *)
Lemma create_rate_success (now foto_id rate : Z) (db : Store) (u : User.t)
      (r : Rating.t) (db' : Store) :
  Ratings.create_rate now foto_id rate db u = (Return (Some r), db') ->
  Ratings.is_self_foto foto_id u db = None
  /\ Ratings.already_voted foto_id u db = None
  /\ r = Rating.mk (fresh_id (map Rating.id (ratings db))) rate now foto_id
                   (Some (User.id u))
  /\ db' = set_ratings (ratings db ++ [r]) db.
Proof.
unfold Ratings.create_rate.
destruct (Ratings.is_self_foto foto_id u db) eqn:Ho; [discriminate|].
destruct (Ratings.already_voted foto_id u db) eqn:Hv; [discriminate|].
simpl. destruct (truthy_obj (Ratings.foto_exists foto_id db)); [|discriminate].
intros [= <- <-]. auto.
Qed.

(** X1.  A vote that [create_rate] accepted is found again: by
    [user_rate_foto] for the rater and the photo (whoever asks), in the
    rater's [show_my_ratings] and in [show_ratings]. *)
Theorem vote_then_lookup (now foto_id rate : Z) (db db' : Store)
        (u viewer : User.t) (r : Rating.t) :
  Ratings.create_rate now foto_id rate db u = (Return (Some r), db') ->
  Ratings.user_rate_foto (User.id u) foto_id db' viewer = Some r
  /\ In r (Ratings.show_my_ratings db' u)
  /\ In r (Ratings.show_ratings db' viewer).
Proof.
intros H. apply create_rate_success in H.
destruct H as (_ & Hv & Hr & ->).
unfold Ratings.user_rate_foto, Ratings.show_my_ratings, Ratings.show_ratings.
simpl. split; [|split].
- unfold Ratings.already_voted in Hv. rewrite (first_app_None _ _ _ Hv).
  subst r. simpl. now rewrite !Z.eqb_refl.
- apply filter_In. split; [apply in_or_app; right; now left|].
  subst r. simpl. apply Z.eqb_refl.
- apply in_or_app. right. now left.
Qed.

Lemma vote_then_lookup_witness :
  exists r db',
    Ratings.create_rate 7 2 5 store_two_fotos alice = (Return (Some r), db')
    /\ Ratings.user_rate_foto 1 2 db' bob = Some r
    /\ In r (Ratings.show_my_ratings db' alice).
Proof.
eexists. eexists.
assert (H : Ratings.create_rate 7 2 5 store_two_fotos alice
            = (Return (Some (Rating.mk 1 5 7 2 (Some 1))),
               set_ratings [Rating.mk 1 5 7 2 (Some 1)] store_two_fotos))
  by reflexivity.
split; [exact H|].
destruct (vote_then_lookup 7 2 5 store_two_fotos _ alice bob _ H) as (A & B & _).
split; [exact A|exact B].
Defined.

Lemma edit_rate_ratings (rate_id new_rate : Z) (db : Store) (u : User.t) :
  ratings (snd (Ratings.edit_rate rate_id new_rate db u)) = ratings db
  \/ ratings (snd (Ratings.edit_rate rate_id new_rate db u))
     = update_first (fun r => Rating.id r =? rate_id)
                    (Rating.set_rate new_rate) (ratings db).
Proof.
unfold Ratings.edit_rate.
destruct (Ratings.edit_rate_permitted _ u) as [[|]|]; auto.
destruct (first _ (ratings db)); auto.
Qed.

Lemma edit_rate_other_tables (rate_id new_rate : Z) (db : Store) (u : User.t) :
  fotos (snd (Ratings.edit_rate rate_id new_rate db u)) = fotos db
  /\ tags (snd (Ratings.edit_rate rate_id new_rate db u)) = tags db.
Proof.
unfold Ratings.edit_rate.
destruct (Ratings.edit_rate_permitted _ u) as [[|]|]; auto.
destruct (first _ (ratings db)); auto.
Qed.

Lemma delete_rate_store (rate_id : Z) (db : Store) (u : User.t) :
  ratings (snd (Ratings.delete_rate rate_id db u))
  = delete_first (fun r => Rating.id r =? rate_id) (ratings db)
  /\ fotos (snd (Ratings.delete_rate rate_id db u)) = fotos db
  /\ tags (snd (Ratings.delete_rate rate_id db u)) = tags db.
Proof.
unfold Ratings.delete_rate.
destruct (first _ (ratings db)) eqn:E; simpl; [auto|].
split; [|auto]. clear u. induction (ratings db) as [|r l IH]; simpl in *; [reflexivity|].
destruct (Rating.id r =? rate_id); [discriminate|]. now rewrite <- IH.
Qed.

Lemma create_rate_store (now foto_id rate : Z) (db : Store) (u : User.t) :
  snd (Ratings.create_rate now foto_id rate db u) = db
  \/ exists r, Ratings.create_rate now foto_id rate db u
               = (Return (Some r), snd (Ratings.create_rate now foto_id rate db u)).
Proof.
unfold Ratings.create_rate.
destruct (truthy_obj _); [now left|].
destruct (truthy_obj _); [now left|].
destruct (truthy_obj _); [|now left].
right. eexists. reflexivity.
Qed.

(** X2.  The three writing functions of the rating engine keep the rule
    of one Rating per (photo, rater) pair: from a store that satisfies it,
    [create_rate], [edit_rate] and [delete_rate] lead to a store that
    satisfies it, whatever their arguments and outcome. *)
Theorem rating_ops_keep_one_vote_per_pair (db : Store) (u : User.t)
        (now foto_id rate rate_id new_rate : Z) :
  one_vote_per_pair db ->
  one_vote_per_pair (snd (Ratings.create_rate now foto_id rate db u))
  /\ one_vote_per_pair (snd (Ratings.edit_rate rate_id new_rate db u))
  /\ one_vote_per_pair (snd (Ratings.delete_rate rate_id db u)).
Proof.
unfold one_vote_per_pair. intros Hinv. split; [|split].
- destruct (create_rate_store now foto_id rate db u) as [->|(r & Hr)]; [exact Hinv|].
  apply create_rate_success in Hr. destruct Hr as (_ & Hv & Hr & ->).
  simpl. rewrite map_app. simpl.
  apply NoDup_snoc; [exact Hinv|].
  intros Hin. apply in_map_iff in Hin. destruct Hin as (x & Hkey & Hx).
  unfold Ratings.already_voted in Hv.
  rewrite first_None_iff in Hv. specialize (Hv x Hx).
  subst r. unfold vote_key in Hkey. simpl in Hkey.
  injection Hkey as Hf Hu. rewrite Hf, Hu, Z.eqb_refl in Hv. simpl in Hv.
  rewrite Z.eqb_refl in Hv. discriminate.
- destruct (edit_rate_ratings rate_id new_rate db u) as [->| ->]; [exact Hinv|].
  now rewrite map_update_first.
- destruct (delete_rate_store rate_id db u) as (-> & _).
  now apply NoDup_map_delete_first.
Qed.

Lemma rating_ops_keep_one_vote_per_pair_witness :
  one_vote_per_pair store_one_vote
  /\ one_vote_per_pair (snd (Ratings.create_rate 0 2 4 store_one_vote alice))
  /\ one_vote_per_pair (snd (Ratings.edit_rate 1 5 store_one_vote bob))
  /\ one_vote_per_pair (snd (Ratings.delete_rate 1 store_one_vote bob)).
Proof.
assert (H : one_vote_per_pair store_one_vote).
{ unfold one_vote_per_pair. simpl. constructor; [simpl; tauto|constructor]. }
split; [exact H|].
destruct (rating_ops_keep_one_vote_per_pair store_one_vote alice 0 2 4 1 5 H)
  as (A & _ & _).
destruct (rating_ops_keep_one_vote_per_pair store_one_vote bob 0 2 4 1 5 H)
  as (_ & B & C).
exact (conj A (conj B C)).
Defined.

(** X3.  The three writing functions of the rating engine keep the rule
    that nobody has a Rating on a photo of their own. *)
Theorem rating_ops_keep_no_self_votes (db : Store) (u : User.t)
        (now foto_id rate rate_id new_rate : Z) :
  no_self_votes db ->
  no_self_votes (snd (Ratings.create_rate now foto_id rate db u))
  /\ no_self_votes (snd (Ratings.edit_rate rate_id new_rate db u))
  /\ no_self_votes (snd (Ratings.delete_rate rate_id db u)).
Proof.
unfold no_self_votes. intros Hinv. split; [|split].
- destruct (create_rate_store now foto_id rate db u) as [->|(r0 & Hr)]; [exact Hinv|].
  apply create_rate_success in Hr. destruct Hr as (Ho & _ & Hr & ->).
  simpl. intros r f Hr' Hf Hid. apply in_app_or in Hr'.
  destruct Hr' as [Hr'|[<-|[]]]; [eauto|].
  right. subst r0. simpl in *. intros Hown.
  unfold Ratings.is_self_foto in Ho. rewrite first_None_iff in Ho.
  specialize (Ho f Hf). rewrite Hid, Z.eqb_refl, Hown in Ho. simpl in Ho.
  rewrite Z.eqb_refl in Ho. discriminate.
- destruct (edit_rate_other_tables rate_id new_rate db u) as (-> & _).
  destruct (edit_rate_ratings rate_id new_rate db u) as [->| ->]; [exact Hinv|].
  intros r f Hr Hf Hid. apply In_update_first in Hr.
  destruct Hr as [Hr|(x & Hx & ->)]; [eauto|].
  simpl in *. eauto.
- destruct (delete_rate_store rate_id db u) as (-> & -> & _).
  intros r f Hr Hf Hid. apply In_delete_first in Hr. eauto.
Qed.

Lemma rating_ops_keep_no_self_votes_witness :
  no_self_votes store_one_vote
  /\ no_self_votes (snd (Ratings.create_rate 0 2 4 store_one_vote alice))
  /\ no_self_votes (snd (Ratings.edit_rate 1 5 store_one_vote bob))
  /\ no_self_votes (snd (Ratings.delete_rate 1 store_one_vote bob)).
Proof.
assert (H : no_self_votes store_one_vote).
{ intros r f [<-|[]] [<-|[<-|[]]] Hid; simpl in *;
    [right; discriminate|discriminate]. }
split; [exact H|].
destruct (rating_ops_keep_no_self_votes store_one_vote alice 0 2 4 1 5 H)
  as (A & _ & _).
destruct (rating_ops_keep_no_self_votes store_one_vote bob 0 2 4 1 5 H)
  as (_ & B & C).
exact (conj A (conj B C)).
Defined.

(** X4.  With distinct Rating ids, [delete_rate] is idempotent: a second
    call with the same id finds nothing, returns [None] and leaves the
    store of the first call as it is. *)
Theorem delete_rate_twice (rate_id : Z) (db : Store) (u u' : User.t) :
  NoDup (map Rating.id (ratings db)) ->
  Ratings.delete_rate rate_id (snd (Ratings.delete_rate rate_id db u)) u'
  = (None, snd (Ratings.delete_rate rate_id db u)).
Proof.
intros Hids.
pose proof (first_delete_first_by_id Rating.id rate_id (ratings db) Hids) as Hgone.
destruct (delete_rate_store rate_id db u) as (Hr & _).
unfold Ratings.delete_rate at 1. rewrite Hr, Hgone. reflexivity.
Qed.

Lemma delete_rate_twice_witness :
  fst (Ratings.delete_rate 1 store_one_vote root)
  = Some (Rating.mk 1 3 0 1 (Some 2))
  /\ Ratings.delete_rate 1 (snd (Ratings.delete_rate 1 store_one_vote root)) bob
     = (None, store_two_fotos).
Proof.
split; [reflexivity|].
apply (delete_rate_twice 1 store_one_vote root bob).
simpl. constructor; [simpl; tauto|constructor].
Defined.

(** X5.  Deleting the Rating that [create_rate] has just returned gives
    back the store in which the vote was cast, so that the same vote can
    be cast again. *)
Theorem vote_then_delete_restores (now foto_id rate : Z) (db db' : Store)
        (u u' : User.t) (r : Rating.t) :
  Ratings.create_rate now foto_id rate db u = (Return (Some r), db') ->
  Ratings.delete_rate (Rating.id r) db' u' = (Some r, db).
Proof.
intros H. apply create_rate_success in H. destruct H as (_ & _ & Hr & ->).
assert (Hfresh : first (fun x => Rating.id x =? Rating.id r) (ratings db) = None).
{ apply first_None_iff. intros x Hx. apply Z.eqb_neq.
  pose proof (fresh_id_above (map Rating.id (ratings db)) (Rating.id x)
                             (in_map Rating.id _ _ Hx)) as Hlt.
  subst r. simpl. lia. }
unfold Ratings.delete_rate. simpl.
rewrite (first_app_None _ _ _ Hfresh). simpl. rewrite Z.eqb_refl.
rewrite delete_first_app_last; [|exact Hfresh|apply Z.eqb_refl].
now destruct db.
Qed.

Lemma vote_then_delete_restores_witness :
  Ratings.delete_rate 2 (snd (Ratings.create_rate 0 2 4 store_one_vote alice)) root
  = (Some (Rating.mk 2 4 0 2 (Some 1)), store_one_vote).
Proof.
exact (vote_then_delete_restores 0 2 4 store_one_vote _ alice root _ eq_refl).
Defined.

(** X6.  In the Rating table [edit_rate] changes nothing but rate values:
    the Ratings keep their ids, dates, photos and raters, in the same
    order, and a Rating with another id than the one asked for is left as
    it is; the Tag table is not written.  This holds for every actor and
    outcome. *)
Theorem edit_rate_keeps_votes (rate_id new_rate : Z) (db : Store) (u : User.t) :
  let db' := snd (Ratings.edit_rate rate_id new_rate db u) in
  map vote_identity (ratings db') = map vote_identity (ratings db)
  /\ (forall r, In r (ratings db') -> Rating.id r <> rate_id -> In r (ratings db))
  /\ tags db' = tags db.
Proof.
intros db'. subst db'.
destruct (edit_rate_other_tables rate_id new_rate db u) as (_ & Ht).
split; [|split; [|exact Ht]].
- destruct (edit_rate_ratings rate_id new_rate db u) as [->| ->]; [reflexivity|].
  now apply map_update_first.
- intros r Hr Hid.
  destruct (edit_rate_ratings rate_id new_rate db u) as [E|E];
    rewrite E in Hr; [exact Hr|].
  clear E. induction (ratings db) as [|x l IH]; simpl in *; [tauto|].
  destruct (Rating.id x =? rate_id) eqn:Ex.
  + destruct Hr as [<-|Hr]; [|auto]. simpl in Hid.
    apply Z.eqb_eq in Ex. contradiction.
  + destruct Hr as [<-|Hr]; auto.
Qed.

(** X7.  A plain user who is not the rater cannot change a vote: when no
    Rating with the given id belongs to the actor, [edit_rate] leaves the
    store as it is, whether the Rating exists or not. *)
Theorem edit_rate_needs_permission (rate_id new_rate : Z) (db : Store)
        (u : User.t) :
  User.role u = user ->
  (forall r, In r (ratings db) -> Rating.id r = rate_id ->
             Rating.user_id r <> Some (User.id u)) ->
  snd (Ratings.edit_rate rate_id new_rate db u) = db.
Proof.
intros Hrole Hother. unfold Ratings.edit_rate, Ratings.edit_rate_permitted.
rewrite Hrole. simpl.
destruct (first _ (ratings db)) as [r|] eqn:E; [|reflexivity].
apply first_Some_In in E. destruct E as [Hin Hid]. apply Z.eqb_eq in Hid.
destruct (col_eqb (Rating.user_id r) (User.id u)) eqn:Ec; [|reflexivity].
apply col_eqb_true in Ec. now apply Hother in Ec.
Qed.

Lemma edit_rate_needs_permission_witness :
  snd (Ratings.edit_rate 1 5 store_one_vote alice) = store_one_vote.
Proof.
apply (edit_rate_needs_permission 1 5 store_one_vote alice eq_refl).
intros r [<-|[]] _. discriminate.
Defined.

(** * Further properties of the tag resolver *)

Lemma create_tag_cases (now : Z) (t : string) (u : User.t) (db : Store) :
  (exists g, first (fun g => (Tag.title g =? t)%string) (tags db) = Some g
             /\ Tags.create_tag now t u db = (g, db))
  \/ (first (fun g => (Tag.title g =? t)%string) (tags db) = None
      /\ Tags.create_tag now t u db
         = (Tag.mk (fresh_id (map Tag.id (tags db))) t now (Some (User.id u)),
            set_tags (tags db ++ [Tag.mk (fresh_id (map Tag.id (tags db))) t now
                                         (Some (User.id u))]) db)).
Proof.
unfold Tags.create_tag.
destruct (first _ (tags db)) as [g|]; [left; exists g|right]; auto.
Qed.

Lemma create_tag_resolves (now : Z) (t : string) (u : User.t) (db : Store) :
  first (fun g => (Tag.title g =? t)%string)
        (tags (snd (Tags.create_tag now t u db)))
  = Some (fst (Tags.create_tag now t u db))
  /\ Tag.title (fst (Tags.create_tag now t u db)) = t.
Proof.
destruct (create_tag_cases now t u db) as [(g & Hg & ->)|(Hnone & ->)]; simpl.
- split; [exact Hg|]. apply first_Some_In in Hg. destruct Hg as [_ Hg].
  now apply String.eqb_eq in Hg.
- split; [|reflexivity]. rewrite (first_app_None _ _ _ Hnone). simpl.
  now rewrite String.eqb_refl.
Qed.

(** X8.  [get_tags] answers title by title: the list it returns has one
    Tag per given title, in the given order and with that title (also for
    a title given twice), and every one of them is a row of the store it
    leaves. *)
Theorem get_tags_titles (now : Z) (tag_titles : list string) (u : User.t)
        (db : Store) :
  map Tag.title (fst (Fotos.get_tags now tag_titles u db)) = tag_titles
  /\ forall g, In g (fst (Fotos.get_tags now tag_titles u db)) ->
               In g (tags (snd (Fotos.get_tags now tag_titles u db))).
Proof.
revert db. induction tag_titles as [|t rest IH]; intros db.
- simpl. split; [reflexivity|tauto].
- rewrite get_tags_cons.
  destruct (create_tag_resolves now t u db) as [Hfirst Htitle].
  destruct (Tags.create_tag now t u db) as [tag db1]. simpl in Hfirst, Htitle.
  destruct (IH db1) as [IHt IHin].
  destruct (get_tags_extends now rest u db1) as (ext & Hext & _).
  destruct (Fotos.get_tags now rest u db1) as [found db2]. simpl in *.
  split; [now rewrite Htitle, IHt|].
  intros g [<-|Hg]; [|auto].
  rewrite Hext. apply in_or_app. left.
  apply first_Some_In in Hfirst. tauto.
Qed.

Lemma create_tag_keeps_titles_unique (now : Z) (t : string) (u : User.t)
      (db : Store) :
  titles_unique db -> titles_unique (snd (Tags.create_tag now t u db)).
Proof.
unfold titles_unique. intros Hinv.
destruct (create_tag_cases now t u db) as [(g & _ & ->)|(Hnone & ->)]; simpl;
  [exact Hinv|].
rewrite map_app. simpl. apply NoDup_snoc; [exact Hinv|].
intros Hin. apply in_map_iff in Hin. destruct Hin as (x & Hx & Hin).
rewrite first_None_iff in Hnone. specialize (Hnone x Hin). simpl in Hnone.
rewrite Hx, String.eqb_refl in Hnone. discriminate.
Qed.

(** X9.  Resolving tags keeps titles unique: from a Tag table in which no
    two rows share a title, [create_tag] and [get_tags] (for any list, with
    repeated titles or not) lead to such a table. *)
Theorem tag_resolution_keeps_titles_unique (now : Z) (t : string)
        (tag_titles : list string) (u : User.t) (db : Store) :
  titles_unique db ->
  titles_unique (snd (Tags.create_tag now t u db))
  /\ titles_unique (snd (Fotos.get_tags now tag_titles u db)).
Proof.
intros Hinv. split; [now apply create_tag_keeps_titles_unique|].
revert db Hinv. induction tag_titles as [|t' rest IH]; intros db Hinv.
- exact Hinv.
- rewrite get_tags_cons.
  pose proof (create_tag_keeps_titles_unique now t' u db Hinv) as H1.
  destruct (Tags.create_tag now t' u db) as [tag db1]. simpl in H1.
  specialize (IH db1 H1).
  destruct (Fotos.get_tags now rest u db1) as [found db2]. exact IH.
Qed.

Lemma tag_resolution_keeps_titles_unique_witness :
  titles_unique (snd (Tags.create_tag 0 "cats" alice (mkStore [] [] [])))
  /\ titles_unique
       (snd (Fotos.get_tags 0 ["cats"; "pets"; "cats"] alice (mkStore [] [] []))).
Proof.
apply (tag_resolution_keeps_titles_unique 0 "cats" ["cats"; "pets"; "cats"]).
constructor.
Defined.

Lemma get_tags_resolved (now : Z) (l : list string) (u : User.t) (db : Store) :
  Forall2 (fun t g => first (fun g => (Tag.title g =? t)%string)
                            (tags (snd (Fotos.get_tags now l u db))) = Some g)
          l (fst (Fotos.get_tags now l u db)).
Proof.
revert db. induction l as [|t rest IH]; intros db.
- constructor.
- rewrite get_tags_cons.
  destruct (create_tag_resolves now t u db) as [Hfirst _].
  destruct (Tags.create_tag now t u db) as [tag db1]. simpl in Hfirst.
  specialize (IH db1).
  destruct (get_tags_extends now rest u db1) as (ext & Hext & _).
  destruct (Fotos.get_tags now rest u db1) as [found db2]. simpl in *.
  constructor; [|exact IH]. rewrite Hext. now apply first_app_Some.
Qed.

Lemma get_tags_all_present (now : Z) (l : list string) (u : User.t)
      (db : Store) (found : list Tag.t) :
  Forall2 (fun t g => first (fun g => (Tag.title g =? t)%string) (tags db)
                      = Some g) l found ->
  Fotos.get_tags now l u db = (found, db).
Proof.
induction 1 as [|t g rest found' Hg _ IH]; [reflexivity|].
simpl. rewrite Hg, IH. reflexivity.
Qed.

Lemma Forall2_In_right {A B : Type} (R : A -> B -> Prop) (l : list A)
      (l' : list B) (y : B) :
  Forall2 R l l' -> In y l' -> exists x, In x l /\ R x y.
Proof.
induction 1 as [|x y' l l' Hxy _ IH]; simpl; [tauto|].
intros [<-|Hy]; [exists x; auto|].
destruct (IH Hy) as (x' & Hx' & HR). exists x'. auto.
Qed.

(** C8.  A title [t] is resolved for user [u1], then any list of titles
    for any user, then [t] again for user [u2]; each time through
    [get_tags] or through [create_tag].  The first resolution returns one
    Tag of title [t], a row of the table: the row that had the title if
    there was one (nothing is written then), otherwise a new row under an
    unused id with [u1] as owner, appended to the table.  Both functions do
    the same.  Every later resolution of [t], alone or within a list,
    returns that very row (so the same id) and creates nothing; the table
    ends with one row of title [t] if it had none, and with as many as it
    had otherwise. *)
Theorem tag_resolved_once (now1 now2 now3 : Z) (t : string)
        (l l2 : list string) (u1 u2 u3 : User.t) (db : Store) :
  let r1 := Fotos.get_tags now1 [t] u1 db in
  let c1 := Tags.create_tag now1 t u1 db in
  let mid := Fotos.get_tags now3 l u3 (snd r1) in
  let r2 := Fotos.get_tags now2 [t] u2 (snd mid) in
  let c2 := Tags.create_tag now2 t u2 (snd mid) in
  exists tag,
    fst r1 = [tag] /\ c1 = (tag, snd r1)
    /\ Tag.title tag = t /\ In tag (tags (snd r1))
    /\ r2 = ([tag], snd mid) /\ c2 = (tag, snd mid)
    /\ (forall g, In g (fst (Fotos.get_tags now2 l2 u2 (snd mid))) ->
                  Tag.title g = t -> g = tag)
    /\ count_title t (tags (snd r2)) = Nat.max 1 (count_title t (tags db))
    /\ match first (fun g => (Tag.title g =? t)%string) (tags db) with
       | Some g => tag = g /\ snd r1 = db
       | None =>
           tag = Tag.mk (fresh_id (map Tag.id (tags db))) t now1
                        (Some (User.id u1))
           /\ ~ In (Tag.id tag) (map Tag.id (tags db))
           /\ tags (snd r1) = tags db ++ [tag]
       end.
Proof.
intros r1 c1 mid r2 c2.
assert (Hr1 : r1 = ([fst c1], snd c1)).
{ subst r1 c1. rewrite get_tags_cons.
  now destruct (Tags.create_tag now1 t u1 db). }
destruct (create_tag_resolves now1 t u1 db) as [Hfirst Htitle].
fold c1 in Hfirst, Htitle.
assert (Hs1 : snd r1 = snd c1) by now rewrite Hr1.
destruct (get_tags_extends now3 l u3 (snd r1)) as (ext & Hext & _).
fold mid in Hext.
assert (Hmid : first (fun g => (Tag.title g =? t)%string) (tags (snd mid))
               = Some (fst c1)).
{ rewrite Hext, Hs1. now apply first_app_Some. }
assert (Hc2 : c2 = (fst c1, snd mid)).
{ subst c2. unfold Tags.create_tag at 1. now rewrite Hmid. }
assert (Hr2 : r2 = ([fst c1], snd mid)).
{ subst r2. rewrite get_tags_cons. fold c2. now rewrite Hc2. }
exists (fst c1).
split; [now rewrite Hr1|]. split; [rewrite Hs1; now destruct c1|].
split; [exact Htitle|].
split; [rewrite Hs1; apply first_Some_In in Hfirst; tauto|].
split; [exact Hr2|]. split; [exact Hc2|]. split; [|split].
- intros g Hg Hgt.
  pose proof (get_tags_resolved now2 l2 u2 (snd mid)) as Hres.
  destruct (Forall2_In_right _ _ _ _ Hres Hg) as (t' & _ & Hfound).
  destruct (get_tags_extends now2 l2 u2 (snd mid)) as (ext2 & Hext2 & _).
  pose proof Hfound as Hin. apply first_Some_In in Hin.
  destruct Hin as [_ Ht']. apply String.eqb_eq in Ht'.
  rewrite Hgt in Ht'. subst t'.
  rewrite Hext2, (first_app_Some _ _ _ _ Hmid) in Hfound. congruence.
- rewrite Hr2. cbn [snd]. subst mid. rewrite get_tags_count, Hs1. subst c1.
  rewrite (create_tag_count now1 t t u1 db), String.eqb_refl.
  destruct (count_title t (tags db)) eqn:E; simpl; reflexivity.
- rewrite Hs1. subst c1.
  destruct (create_tag_cases now1 t u1 db) as [(g & Hg & ->)|(Hnone & ->)].
  + rewrite Hg. auto.
  + rewrite Hnone. cbn [fst snd tags set_tags Tag.id].
    split; [reflexivity|]. split; [|reflexivity].
    intros Hin. apply fresh_id_above in Hin. lia.
Qed.

Lemma tag_resolved_once_witness :
  Fotos.get_tags 0 ["cats"] alice (mkStore [] [] [])
  = ([Tag.mk 1 "cats" 0 (Some 1)], mkStore [] [Tag.mk 1 "cats" 0 (Some 1)] [])
  /\ Fotos.get_tags 9 ["cats"] bob
       (snd (Fotos.get_tags 5 ["pets"] carol
               (snd (Fotos.get_tags 0 ["cats"] alice (mkStore [] [] [])))))
     = ([Tag.mk 1 "cats" 0 (Some 1)],
        mkStore [] [Tag.mk 1 "cats" 0 (Some 1); Tag.mk 2 "pets" 5 (Some 4)] []).
Proof.
destruct (tag_resolved_once 0 9 5 "cats" ["pets"] [] alice bob carol
            (mkStore [] [] []))
  as (tag & Hr1 & Hc1 & _ & _ & Hr2 & _ & _ & _ & Hnew).
cbn [first tags] in Hnew. destruct Hnew as (-> & _ & _).
split.
- reflexivity.
- exact Hr2.
Defined.

(** X10.  [get_tags] is idempotent on lists: resolving the same titles a
    second time, at any later time and for any user, returns the same Tag
    rows and writes nothing. *)
Theorem get_tags_twice (now now' : Z) (tag_titles : list string)
        (u u' : User.t) (db : Store) :
  Fotos.get_tags now' tag_titles u' (snd (Fotos.get_tags now tag_titles u db))
  = Fotos.get_tags now tag_titles u db.
Proof.
pose proof (get_tags_resolved now tag_titles u db) as H.
rewrite (get_tags_all_present now' tag_titles u' _ _ H).
now destruct (Fotos.get_tags now tag_titles u db).
Qed.

(** * Further properties of the photo functions *)

Lemma split_not_nil (sep : ascii) (s : string) : split sep s <> [].
Proof.
destruct s as [|c rest]; simpl; [discriminate|].
destruct (Ascii.eqb c sep); [discriminate|].
destruct (split sep rest); discriminate.
Qed.

Lemma split_length (sep : ascii) (s : string) :
  List.length (split sep s) = S (count_char sep s).
Proof.
induction s as [|c rest IH]; simpl; [reflexivity|].
destruct (Ascii.eqb c sep); simpl; [now rewrite IH|].
destruct (split sep rest) as [|w ws]; simpl in *; [discriminate|exact IH].
Qed.

Lemma concat_two_or_more (sep x y : string) (l : list string) :
  String.concat sep (x :: y :: l)
  = (x ++ sep ++ String.concat sep (y :: l))%string.
Proof. reflexivity. Qed.

(** X11.  [str.split] as [create_foto] uses it loses nothing: joining the
    parts with the separator gives the string back, there is one part more
    than there are separators, and no part contains the separator. *)
Theorem split_join (sep : ascii) (s : string) :
  String.concat (String sep "") (split sep s) = s
  /\ List.length (split sep s) = S (count_char sep s)
  /\ forall part, In part (split sep s) -> count_char sep part = 0%nat.
Proof.
split; [|split; [apply split_length|]].
- induction s as [|c rest IH]; simpl; [reflexivity|].
  pose proof (split_not_nil sep rest) as Hne.
  destruct (split sep rest) as [|w ws]; [contradiction|].
  destruct (Ascii.eqb c sep) eqn:E.
  + apply Ascii.eqb_eq in E. subst c.
    rewrite concat_two_or_more, IH. reflexivity.
  + destruct ws as [|w' ws'].
    * simpl in *. now rewrite IH.
    * rewrite concat_two_or_more in *. rewrite <- IH. reflexivity.
- induction s as [|c rest IH]; simpl.
  + intros part [<-|[]]. reflexivity.
  + destruct (Ascii.eqb c sep) eqn:E.
    * intros part [<-|H]; [reflexivity|auto].
    * pose proof (split_not_nil sep rest) as Hne.
      destruct (split sep rest) as [|w ws]; [contradiction|].
      intros part [<-|H].
      -- simpl. rewrite E. simpl. apply IH. now left.
      -- apply IH. now right.
Qed.

Section MorePhotos.

Variable build_url : option string -> list (string * pyval) -> string.

Lemma get_tags_length (now : Z) (l : list string) (u : User.t) (db : Store) :
  List.length (fst (Fotos.get_tags now l u db)) = List.length l.
Proof.
revert db. induction l as [|t rest IH]; intros db; [reflexivity|].
rewrite get_tags_cons.
destruct (Tags.create_tag now t u db) as [tag db1]. specialize (IH db1).
destruct (Fotos.get_tags now rest u db1) as [found db2]. simpl in *.
now rewrite IH.
Qed.

Lemma dedup_In (ids : list Z) (x : Z) : In x (dedup ids) <-> In x ids.
Proof.
induction ids as [|y rest IH]; simpl; [tauto|].
rewrite filter_In, IH. destruct (Z.eq_dec x y) as [->|Hne].
- tauto.
- apply Z.eqb_neq in Hne. rewrite Hne. simpl.
  apply Z.eqb_neq in Hne. intuition congruence.
Qed.

Lemma dedup_NoDup (ids : list Z) : NoDup (dedup ids).
Proof.
induction ids as [|y rest IH]; simpl; constructor.
- rewrite filter_In, Z.eqb_refl. simpl. intros [_ H]. discriminate.
- now apply NoDup_filter.
Qed.

Lemma dedup_length (ids : list Z) :
  (List.length (dedup ids) <= List.length ids)%nat.
Proof.
induction ids as [|y rest IH]; simpl; [lia|].
pose proof (filter_length_le (fun z => negb (z =? y)) (dedup rest)). lia.
Qed.

Lemma get_tags_found (now : Z) (l : list string) (u : User.t) (db : Store) :
  map Tag.title (fst (Fotos.get_tags now l u db)) = l
  /\ forall g, In g (fst (Fotos.get_tags now l u db)) ->
               In g (tags (snd (Fotos.get_tags now l u db))).
Proof.
revert db. induction l as [|t rest IH]; intros db.
- simpl. split; [reflexivity|tauto].
- rewrite get_tags_cons.
  destruct (create_tag_resolves now t u db) as [Hfirst Htitle].
  destruct (Tags.create_tag now t u db) as [tag db1]. simpl in Hfirst, Htitle.
  destruct (IH db1) as [IHt IHin].
  destruct (get_tags_extends now rest u db1) as (ext & Hext & _).
  destruct (Fotos.get_tags now rest u db1) as [found db2]. simpl in *.
  split; [now rewrite Htitle, IHt|].
  intros g [<-|Hg]; [|auto].
  rewrite Hext. apply in_or_app. left.
  apply first_Some_In in Hfirst. tauto.
Qed.

Lemma resolved_tags_of_titles (db : Store) (titles : list string)
      (found : list Tag.t) :
  map Tag.title found = titles ->
  (forall g, In g found -> In g (tags db)) ->
  tags_of_titles db titles (dedup (map Tag.id found)).
Proof.
intros Htitles Hstored. unfold tags_of_titles.
split; [apply dedup_NoDup|]. split; [|split].
- intros t Ht. rewrite <- Htitles in Ht. apply in_map_iff in Ht.
  destruct Ht as (g & Hg & Hin). exists g.
  split; [auto|]. split; [exact Hg|]. apply dedup_In. now apply in_map.
- intros id Hid. apply dedup_In, in_map_iff in Hid.
  destruct Hid as (g & Hg & Hin). exists g.
  split; [auto|]. split; [exact Hg|]. rewrite <- Htitles. now apply in_map.
- pose proof (dedup_length (map Tag.id found)) as H.
  rewrite length_map in H. rewrite <- Htitles, length_map. exact H.
Qed.

(** X12.  Of the form entries given as tags, [create_foto] reads the first
    one only.  The photo it returns has the Tags named by the
    comma-separated parts of that entry: each id once (also for a part
    given twice), for every part a stored Tag of that title, no id of
    another Tag, and so at most one tag more than the entry has commas. *)
Theorem create_foto_reads_first_tag_entry (now : Z) (title descr : string)
        (tag0 : string) (more : list string) (file : string) (w : World)
        (u : User.t) :
  let created :=
    Fotos.create_foto build_url now title descr (tag0 :: more) file w u in
  created = Fotos.create_foto build_url now title descr [tag0] file w u
  /\ tags_of_titles (db (snd created)) (split "," tag0) (Foto.tags (fst created))
  /\ (List.length (Foto.tags (fst created)) <= S (count_char "," tag0))%nat.
Proof.
intros created. subst created. split; [reflexivity|].
assert (H : tags_of_titles
              (db (snd (Fotos.create_foto build_url now title descr
                          (tag0 :: more) file w u)))
              (split "," tag0)
              (Foto.tags (fst (Fotos.create_foto build_url now title descr
                                 (tag0 :: more) file w u)))).
{ unfold Fotos.create_foto.
  destruct (get_tags_found now (split "," tag0) u (db w)) as [Htitles Hstored].
  destruct (Fotos.get_tags now (split "," tag0) u (db w)) as [tag_rows db1].
  cbn [fst snd db tags set_fotos Foto.tags] in *.
  now apply resolved_tags_of_titles. }
split; [exact H|].
destruct H as (_ & _ & _ & Hlen). now rewrite split_length in Hlen.
Qed.

Lemma create_foto_id (now : Z) (title descr : string) (tgs : list string)
      (file : string) (w : World) (u : User.t) :
  Foto.id (fst (Fotos.create_foto build_url now title descr tgs file w u))
  = fresh_id (map Foto.id (fotos (db w))).
Proof.
unfold Fotos.create_foto. destruct tgs as [|tag0 more]; [reflexivity|].
pose proof (get_tags_fotos now (split "," tag0) u (db w)) as Hf.
destruct (Fotos.get_tags now (split "," tag0) u (db w)) as [tag_rows db1].
simpl in *. now rewrite Hf.
Qed.



End MorePhotos.





Section PhotoHistory.

Variable build_url : option string -> list (string * pyval) -> string.

(** X15.  No writing function reassigns a stored photo: after any call,
    every photo of the store either has the id, owner, public identifier,
    image URL and creation date of a photo that was there before, or is
    the photo just created, under an id that was not in use. *)
Theorem step_keeps_photo_identity (w w' : World) (f' : Foto.t) :
  step build_url w w' ->
  In f' (fotos (db w')) ->
  In (foto_identity f') (map foto_identity (fotos (db w)))
  \/ (Foto.id f' = fresh_id (map Foto.id (fotos (db w)))
      /\ ~ In (Foto.id f') (map Foto.id (fotos (db w)))).
Proof.
intros Hstep.
destruct Hstep as [now title descr tgs file w u | now foto_id body u w
                  | foto_id u w | foto_id body u w | now foto_id rate u w
                  | rate_id new_rate u w | rate_id u w | now title u w].
- (* create_foto *)
  destruct (create_foto_row build_url now title descr tgs file w u)
    as (_ & _ & _ & _ & Hrows).
  pose proof (create_foto_id build_url now title descr tgs file w u) as Hid.
  rewrite Hrows. intros Hf. apply in_app_or in Hf.
  destruct Hf as [Hf|[<-|[]]]; [left; now apply in_map|right].
  split; [exact Hid|]. rewrite Hid. intros Hin.
  apply fresh_id_above in Hin. lia.
- (* update_foto *)
  unfold Fotos.update_foto.
  destruct (first _ (fotos (db w))) as [foto|]; [|left; now apply in_map].
  destruct (_ || _); [|left; now apply in_map].
  destruct (truthy_list (FotoUpdate.tags body)).
  + pose proof (get_tags_fotos now (FotoUpdate.tags body) u (db w)) as Hrows.
    destruct (Fotos.get_tags now (FotoUpdate.tags body) u (db w))
      as [tag_rows db1]. simpl in Hrows.
    intros Hf. simpl in Hf. rewrite Hrows in Hf. left.
    apply In_update_first in Hf. destruct Hf as [Hf|(x & Hx & ->)];
      [now apply in_map|].
    apply in_map_iff. exists x. auto.
  + intros Hf. simpl in Hf. left.
    apply In_update_first in Hf. destruct Hf as [Hf|(x & Hx & ->)];
      [now apply in_map|].
    apply in_map_iff. exists x. auto.
- (* remove_foto *)
  unfold Fotos.remove_foto.
  destruct (first _ (fotos (db w))) as [foto|]; [|left; now apply in_map].
  destruct (_ || _); [|left; now apply in_map].
  destruct (existsb _ (ratings (db w))); [left; now apply in_map|].
  intros Hf. simpl in Hf. apply In_delete_first in Hf. left. now apply in_map.
- (* transform_metod *)
  unfold TransformFoto.transform_metod.
  destruct (first _ (fotos (db w))) as [foto|]; [|left; now apply in_map].
  destruct (truthy_list _); [|left; now apply in_map].
  intros Hf. simpl in Hf. left.
  apply In_update_first in Hf. destruct Hf as [Hf|(x & Hx & ->)];
    [now apply in_map|].
  apply in_map_iff. exists x. auto.
- (* create_rate *)
  intros Hf. left. apply in_map. revert Hf. unfold Ratings.create_rate.
  destruct (truthy_obj _); [auto|].
  destruct (truthy_obj _); [auto|].
  destruct (truthy_obj _); auto.
- (* edit_rate *)
  intros Hf. left. apply in_map. revert Hf. simpl.
  now rewrite (proj1 (edit_rate_other_tables rate_id new_rate (db w) u)).
- (* delete_rate *)
  intros Hf. left. apply in_map. revert Hf. simpl.
  destruct (delete_rate_store rate_id (db w) u) as (_ & -> & _). auto.
- (* create_tag *)
  intros Hf. left. apply in_map. revert Hf. simpl.
  destruct (create_tag_extends now title u (db w)) as (ext & _ & -> & _). auto.
Qed.


End PhotoHistory.

Lemma step_keeps_photo_identity_witness :
  let w' := snd (Fotos.update_foto 9 1 (FotoUpdate.mk "new" "text" ["a"]) root
                                   world_two_fotos) in
  let f' := Foto.mk 1 (Some "image_url") (Some "transform_url") (Some "new")
                    (Some "text") 0 9 [1] true (Some 1) (Some "888") in
  In f' (fotos (db w'))
  /\ (In (foto_identity f') (map foto_identity (fotos (db world_two_fotos)))
      \/ (Foto.id f' = fresh_id (map Foto.id (fotos (db world_two_fotos)))
          /\ ~ In (Foto.id f') (map Foto.id (fotos (db world_two_fotos))))).
Proof.
intros w' f'.
assert (Hin : In f' (fotos (db w'))) by (left; reflexivity).
split; [exact Hin|].
apply (step_keeps_photo_identity demo_build_url world_two_fotos w' f');
  [apply step_update_foto|exact Hin].
Defined.


(** * Further properties of the transformation compiler *)

Section GroupLengths.

Variable body : TransformBodyModel.t.

Lemma circle_ops_length :
  List.length (TransformFoto.circle_ops body)
  = if circle_qualifies body then 2%nat else 0%nat.
Proof.
unfold TransformFoto.circle_ops, circle_qualifies.
now destruct (_ && _ && _).
Qed.

Lemma effect_ops_length :
  List.length (TransformFoto.effect_ops body)
  = if effect_qualifies body then 1%nat else 0%nat.
Proof.
unfold TransformFoto.effect_ops, effect_qualifies, TransformFoto.resolved_effect.
destruct (Effect.use_filter (effect body)); [|reflexivity].
now destruct (Effect.art_audrey (effect body)), (Effect.art_zorro (effect body)),
             (Effect.blur (effect body)), (Effect.cartoonify (effect body)).
Qed.

Lemma resize_ops_length :
  List.length (TransformFoto.resize_ops body)
  = if resize_qualifies body then 1%nat else 0%nat.
Proof.
unfold TransformFoto.resize_ops, resize_qualifies, TransformFoto.resolved_crop.
destruct (Resize.use_filter (resize body)); [|reflexivity].
destruct (truthy_int (Resize.height (resize body))); [|reflexivity].
now destruct (Resize.crop (resize body)), (Resize.fill (resize body)).
Qed.

Lemma text_ops_length :
  List.length (TransformFoto.text_ops body)
  = if text_qualifies body then 2%nat else 0%nat.
Proof.
unfold TransformFoto.text_ops, text_qualifies.
now destruct (_ && _ && _).
Qed.

Lemma rotate_ops_length :
  List.length (TransformFoto.rotate_ops body)
  = if rotate_qualifies body then 3%nat else 0%nat.
Proof.
unfold TransformFoto.rotate_ops, rotate_qualifies.
now destruct (_ && _ && _).
Qed.

Lemma transformation_length_by_group :
  List.length (TransformFoto.transformation body)
  = ((if circle_qualifies body then 2 else 0)
     + (if effect_qualifies body then 1 else 0)
     + (if resize_qualifies body then 1 else 0)
     + (if text_qualifies body then 2 else 0)
     + (if rotate_qualifies body then 3 else 0))%nat.
Proof.
unfold TransformFoto.transformation. simpl app. rewrite !length_app.
rewrite circle_ops_length, effect_ops_length, resize_ops_length,
  text_ops_length, rotate_ops_length. reflexivity.
Qed.

Lemma transformation_nil_iff :
  TransformFoto.transformation body = []
  <-> circle_qualifies body = false /\ effect_qualifies body = false
      /\ resize_qualifies body = false /\ text_qualifies body = false
      /\ rotate_qualifies body = false.
Proof.
rewrite <- length_zero_iff_nil, transformation_length_by_group.
destruct (circle_qualifies body), (effect_qualifies body),
  (resize_qualifies body), (text_qualifies body), (rotate_qualifies body);
  simpl; split; try discriminate; try tauto;
  intros (? & ? & ? & ? & ?); discriminate.
Qed.

(** X17.  The compiled list has two operations for a qualifying
    circle-crop group, one for effect, one for resize, two for text and
    three for rotate, in this order of groups, and none for a group that
    does not qualify: never more than nine. *)
Theorem transformation_length :
  List.length (TransformFoto.circle_ops body)
  = (if circle_qualifies body then 2 else 0)%nat
  /\ List.length (TransformFoto.effect_ops body)
     = (if effect_qualifies body then 1 else 0)%nat
  /\ List.length (TransformFoto.resize_ops body)
     = (if resize_qualifies body then 1 else 0)%nat
  /\ List.length (TransformFoto.text_ops body)
     = (if text_qualifies body then 2 else 0)%nat
  /\ List.length (TransformFoto.rotate_ops body)
     = (if rotate_qualifies body then 3 else 0)%nat
  /\ TransformFoto.transformation body
     = TransformFoto.circle_ops body ++ TransformFoto.effect_ops body
       ++ TransformFoto.resize_ops body ++ TransformFoto.text_ops body
       ++ TransformFoto.rotate_ops body
  /\ (List.length (TransformFoto.transformation body) <= 9)%nat.
Proof.
split; [apply circle_ops_length|]. split; [apply effect_ops_length|].
split; [apply resize_ops_length|]. split; [apply text_ops_length|].
split; [apply rotate_ops_length|]. split.
- unfold TransformFoto.transformation. simpl app. now rewrite <- !app_assoc.
- rewrite transformation_length_by_group.
  destruct (circle_qualifies body), (effect_qualifies body),
    (resize_qualifies body), (text_qualifies body), (rotate_qualifies body);
    simpl; lia.
Qed.

End GroupLengths.

Lemma update_first_twice {A : Type} (p : A -> bool) (f g : A -> A)
      (rows : list A) :
  (forall x, p (f x) = p x) ->
  update_first p g (update_first p f rows)
  = update_first p (fun x => g (f x)) rows.
Proof.
intros Hp. induction rows as [|r rest IH]; simpl; [reflexivity|].
destruct (p r) eqn:E; simpl.
- now rewrite Hp, E.
- now rewrite E, IH.
Qed.

Lemma app_two_neq {A : Type} (l : list A) (a b : A) : l ++ [a; b] <> l.
Proof.
intros H. apply (f_equal (@List.length A)) in H.
rewrite length_app in H. simpl in H. lia.
Qed.

Section MoreTransform.

Variable build_url : option string -> list (string * pyval) -> string.

Lemma transform_metod_owned (foto_id : Z) (body : TransformBodyModel.t)
      (u : User.t) (w : World) (foto : Foto.t) :
  first (TransformFoto.owned_by foto_id u) (fotos (db w)) = Some foto ->
  TransformFoto.transform_metod build_url foto_id body u w
  = if truthy_list (TransformFoto.transformation body) then
      let options :=
        [("transformation", VList (TransformFoto.transformation body))] in
      let url := build_url (Foto.public_id foto) options in
      (Some (Foto.set_transform_url (Some url) foto),
       mkWorld (set_fotos (update_first (TransformFoto.owned_by foto_id u)
                             (Foto.set_transform_url (Some url))
                             (fotos (db w))) (db w))
               (cloud w ++ [InitCloudinary;
                            BuildUrl (Foto.public_id foto) options]))
    else (Some foto, w).
Proof.
intros Hfoto. unfold TransformFoto.transform_metod. now rewrite Hfoto.
Qed.

(** X18.  For a photo of the requester, [transform_metod] leaves the world
    (store and log of calls to the image service) as it is exactly when no
    group of the request qualifies. *)
Theorem transform_is_noop_iff (foto_id : Z) (body : TransformBodyModel.t)
        (u : User.t) (w : World) (foto : Foto.t) :
  first (TransformFoto.owned_by foto_id u) (fotos (db w)) = Some foto ->
  (snd (TransformFoto.transform_metod build_url foto_id body u w) = w
   <-> circle_qualifies body = false /\ effect_qualifies body = false
       /\ resize_qualifies body = false /\ text_qualifies body = false
       /\ rotate_qualifies body = false).
Proof.
intros Hfoto.
rewrite <- (transformation_nil_iff body).
unfold TransformFoto.transform_metod. rewrite Hfoto.
destruct (TransformFoto.transformation body) as [|op ops]; simpl.
- tauto.
- split; [|discriminate]. intros H. apply (f_equal cloud) in H. simpl in H.
  now apply app_two_neq in H.
Qed.

(** X19.  Transformations do not add up: the URL is built from the public
    identifier and the request alone, so a request that compiles to a
    non-empty list gives the same photo and the same store whether or not
    another request was applied before it. *)
Theorem transform_metod_last_wins (foto_id : Z) (body1 body2 : TransformBodyModel.t)
        (u : User.t) (w : World) (foto : Foto.t) :
  first (TransformFoto.owned_by foto_id u) (fotos (db w)) = Some foto ->
  TransformFoto.transformation body2 <> [] ->
  let w1 := snd (TransformFoto.transform_metod build_url foto_id body1 u w) in
  fst (TransformFoto.transform_metod build_url foto_id body2 u w1)
  = fst (TransformFoto.transform_metod build_url foto_id body2 u w)
  /\ db (snd (TransformFoto.transform_metod build_url foto_id body2 u w1))
     = db (snd (TransformFoto.transform_metod build_url foto_id body2 u w)).
Proof.
intros Hfoto Hops w1. subst w1.
rewrite (transform_metod_owned foto_id body1 u w foto Hfoto).
destruct (TransformFoto.transformation body1) as [|op1 ops1]; [now split|].
cbn [truthy_list snd].
set (url1 := build_url (Foto.public_id foto) _).
set (w1 := mkWorld _ _).
assert (H1 : first (TransformFoto.owned_by foto_id u) (fotos (db w1))
             = Some (Foto.set_transform_url (Some url1) foto)).
{ subst w1. cbn [db fotos set_fotos]. apply first_update_first; [exact Hfoto|].
  rewrite owned_by_set_transform_url. apply first_Some_In in Hfoto. tauto. }
rewrite (transform_metod_owned foto_id body2 u w1 _ H1).
rewrite (transform_metod_owned foto_id body2 u w foto Hfoto).
destruct (TransformFoto.transformation body2) as [|op2 ops2]; [contradiction|].
cbn [truthy_list fst snd db]. split; [reflexivity|].
subst w1. cbn [db fotos set_fotos tags ratings].
rewrite update_first_twice by (intros; apply owned_by_set_transform_url).
reflexivity.
Qed.

(** X20.  [transform_metod] writes to the requester's own photo only, and
    no role lifts that: whoever calls it, the photo ids of the store stay
    as they are, every photo that is not the requester's photo of that id
    stays as it is, tags and ratings are not written, and without such a
    photo the call returns [None] and changes nothing. *)
Theorem transform_metod_touches_only_own (foto_id : Z)
        (body : TransformBodyModel.t) (u : User.t) (w : World) :
  let w' := snd (TransformFoto.transform_metod build_url foto_id body u w) in
  map Foto.id (fotos (db w')) = map Foto.id (fotos (db w))
  /\ (forall f, In f (fotos (db w)) ->
                TransformFoto.owned_by foto_id u f = false ->
                In f (fotos (db w')))
  /\ tags (db w') = tags (db w) /\ ratings (db w') = ratings (db w)
  /\ (first (TransformFoto.owned_by foto_id u) (fotos (db w)) = None ->
      TransformFoto.transform_metod build_url foto_id body u w = (None, w)).
Proof.
intros w'. subst w'. unfold TransformFoto.transform_metod.
destruct (first _ (fotos (db w))) as [foto|] eqn:Hfoto;
  [|simpl; repeat apply conj; auto].
destruct (truthy_list _); simpl;
  [|repeat apply conj; auto; discriminate].
repeat apply conj; try reflexivity; try discriminate.
- now apply map_update_first.
- intros f Hf Hown. now apply In_update_first_other.
Qed.

End MoreTransform.

Lemma transform_is_noop_iff_witness :
  snd (TransformFoto.transform_metod demo_build_url 1 body_effect_none alice
                                     world_two_fotos) = world_two_fotos.
Proof.
apply (transform_is_noop_iff demo_build_url 1 body_effect_none alice
         world_two_fotos (sample_foto 1 1) eq_refl).
repeat apply conj; reflexivity.
Defined.

Lemma transform_metod_last_wins_witness :
  fst (TransformFoto.transform_metod demo_build_url 1 body_rotate_only alice
         (snd (TransformFoto.transform_metod demo_build_url 1 body_effect_blur
                                             alice world_two_fotos)))
  = fst (TransformFoto.transform_metod demo_build_url 1 body_rotate_only alice
                                       world_two_fotos).
Proof.
assert (Hops : TransformFoto.transformation body_rotate_only <> [])
  by discriminate.
exact (proj1 (transform_metod_last_wins demo_build_url 1 body_effect_blur
                body_rotate_only alice world_two_fotos (sample_foto 1 1)
                eq_refl Hops)).
Defined.

(** * Routes, QR text and pages *)

Section Routes.

Variable build_url : option string -> list (string * pyval) -> string.
Variable qr_png : string -> Z -> option (list Byte.byte).



End Routes.

Lemma get_In_string (n : nat) (s : string) (c : ascii) :
  String.get n s = Some c -> In c (list_ascii_of_string s).
Proof.
revert n. induction s as [|x rest IH]; intros n; simpl; [discriminate|].
destruct n as [|n]; [intros [= ->]; now left|]. intros H. right. eauto.
Qed.

Lemma b64_char_text (n : N) : b64_text_char (b64_char n) = true.
Proof.
unfold b64_char, b64_text_char.
destruct (String.get (N.to_nat n) b64_alphabet) as [c|] eqn:E;
  [|apply orb_true_r].
apply orb_true_iff. left. apply existsb_exists. exists c.
split; [exact (get_In_string _ _ _ E)|apply Ascii.eqb_refl].
Qed.

Lemma b64encode_shape (n : nat) (bs : list Byte.byte) :
  (List.length bs <= n)%nat ->
  String.length (b64encode bs) = (4 * ((List.length bs + 2) / 3))%nat
  /\ forallb b64_text_char (list_ascii_of_string (b64encode bs)) = true.
Proof.
revert bs. induction n as [|n IH]; intros bs Hlen.
- destruct bs; [split; reflexivity|simpl in Hlen; lia].
- destruct bs as [|a [|b [|c rest]]]; try (split; reflexivity).
  + split; [reflexivity|]. cbn [b64encode list_ascii_of_string forallb].
    now rewrite !b64_char_text.
  + split; [reflexivity|]. cbn [b64encode list_ascii_of_string forallb].
    now rewrite !b64_char_text.
  + destruct (IH rest) as [IHlen IHtext]; [simpl in Hlen; lia|].
    split.
    * cbn [b64encode String.length List.length]. rewrite IHlen.
      replace (S (S (S (List.length rest))) + 2)%nat
        with (1 * 3 + (List.length rest + 2))%nat by lia.
      rewrite Nat.div_add_l by discriminate. lia.
    * cbn [b64encode list_ascii_of_string forallb].
      now rewrite !b64_char_text, IHtext.
Qed.

(** X22.  What [show_qr] returns is base64 text: its length is four times
    the number of started three-byte groups of the image (so a multiple of
    four), and it has no character outside the base64 alphabet and the
    padding sign. *)
Theorem show_qr_is_base64 (qr_png : string -> Z -> option (list Byte.byte))
        (foto_id : Z) (u : User.t) (w : World) (s : string) :
  TransformFoto.show_qr qr_png foto_id u w = Return (Some s) ->
  exists url png,
    qr_png url 6 = Some png
    /\ s = b64encode png
    /\ String.length s = (4 * ((List.length png + 2) / 3))%nat
    /\ forallb b64_text_char (list_ascii_of_string s) = true.
Proof.
unfold TransformFoto.show_qr.
destruct (first _ (fotos (db w))) as [foto|]; [|discriminate].
destruct (Foto.transform_url foto) as [url|]; [|discriminate].
destruct (truthy_str (Some url)); [|discriminate].
destruct (qr_png url 6) as [png|] eqn:Epng; [|discriminate].
intros [= <-]. exists url, png. split; [exact Epng|]. split; [reflexivity|].
exact (b64encode_shape _ _ (Nat.le_refl _)).
Qed.

Lemma show_qr_is_base64_witness :
  exists url png,
    demo_qr_png url 6 = Some png
    /\ "iVBORw0KGgo=" = b64encode png
    /\ String.length "iVBORw0KGgo=" = (4 * ((List.length png + 2) / 3))%nat
    /\ forallb b64_text_char (list_ascii_of_string "iVBORw0KGgo=") = true.
Proof.
exact (show_qr_is_base64 demo_qr_png 1 alice world_two_fotos "iVBORw0KGgo="
                         eq_refl).
Defined.

Lemma firstn_pages {A : Type} (a b : nat) (l : list A) :
  firstn a l ++ firstn b (skipn a l) = firstn (a + b) l.
Proof.
revert l. induction a as [|a IH]; intros l; [reflexivity|].
destruct l as [|x l]; simpl; [now rewrite firstn_nil|]. now rewrite IH.
Qed.

Lemma In_page {A : Type} (a b : nat) (l : list A) (x : A) :
  In x (firstn b (skipn a l)) -> In x l.
Proof.
intros H. rewrite <- (firstn_skipn a l). apply in_or_app. right.
rewrite <- (firstn_skipn b (skipn a l)). apply in_or_app. now left.
Qed.

(** X23.  Pages of [get_my_fotos] tile the requester's photos: for
    non-negative arguments, the page of [n] photos after [skip] followed by
    the page of [m] photos after [skip + n] is the page of [n + m] photos
    after [skip]; a page has at most [limit] photos, all of them stored and
    owned by the requester. *)
Theorem get_my_fotos_pages (skip n m : Z) (u : User.t) (db : Store) :
  0 <= skip -> 0 <= n -> 0 <= m ->
  Fotos.get_my_fotos skip n u db ++ Fotos.get_my_fotos (skip + n) m u db
  = Fotos.get_my_fotos skip (n + m) u db
  /\ Z.of_nat (List.length (Fotos.get_my_fotos skip n u db)) <= n
  /\ forall f, In f (Fotos.get_my_fotos skip n u db) ->
               In f (fotos db) /\ Foto.user_id f = Some (User.id u).
Proof.
intros Hs Hn Hm. unfold Fotos.get_my_fotos, Fotos.paginate.
set (mine := filter _ (fotos db)).
split; [|split].
- rewrite !Z2Nat.inj_add by assumption.
  rewrite (Nat.add_comm (Z.to_nat skip)), <- skipn_skipn.
  apply firstn_pages.
- pose proof (firstn_le_length (Z.to_nat n) (skipn (Z.to_nat skip) mine)). lia.
- intros f Hf. apply In_page in Hf. subst mine.
  apply filter_In in Hf. destruct Hf as [Hin Hown].
  split; [exact Hin|now apply col_eqb_true].
Qed.

Lemma get_my_fotos_pages_witness :
  Fotos.get_my_fotos 0 1 alice store_two_fotos
  ++ Fotos.get_my_fotos 1 5 alice store_two_fotos
  = Fotos.get_my_fotos 0 6 alice store_two_fotos.
Proof.
apply (get_my_fotos_pages 0 1 5 alice store_two_fotos); lia.
Defined.

(** * Accepted votes, permitted edits, photo updates and uploads *)

(** X24.  A vote on an existing photo by someone who neither owns it nor
    has voted on it is accepted for every value that a 32-bit Integer
    column holds, not only for 1 and -1: [create_rate] returns a new Rating
    with that value, photo, rater and date under an unused id, appends it
    to the Rating table and leaves the Tag table as it is. *)
Theorem vote_accepted (now foto_id rate : Z) (db : Store) (u : User.t) :
  - 2 ^ 31 <= rate < 2 ^ 31 ->
  photo_exists db foto_id -> ~ owns db u foto_id -> ~ voted db u foto_id ->
  let done := Ratings.create_rate now foto_id rate db u in
  exists r,
    fst done = Return (Some r)
    /\ ratings (snd done) = ratings db ++ [r]
    /\ tags (snd done) = tags db
    /\ Rating.rate r = rate /\ Rating.foto_id r = foto_id
    /\ Rating.user_id r = Some (User.id u) /\ Rating.created_at r = now
    /\ ~ In (Rating.id r) (map Rating.id (ratings db)).
Proof.
intros _ He Ho Hv done. subst done. unfold Ratings.create_rate.
apply (not_truthy_iff _ _ (is_self_foto_owns db u foto_id)) in Ho.
apply (not_truthy_iff _ _ (already_voted_voted db u foto_id)) in Hv.
apply foto_exists_photo_exists in He. rewrite Ho, Hv, He.
eexists. cbn [fst snd ratings tags set_ratings].
repeat apply conj; try reflexivity.
cbn [Rating.id]. intros Hin. apply fresh_id_above in Hin. lia.
Qed.

Lemma vote_accepted_witness :
  exists r,
    fst (Ratings.create_rate 3 2 (-7) store_one_vote alice) = Return (Some r)
    /\ ratings (snd (Ratings.create_rate 3 2 (-7) store_one_vote alice))
       = ratings store_one_vote ++ [r]
    /\ Rating.rate r = -7.
Proof.
assert (Hrange : - 2 ^ 31 <= -7 < 2 ^ 31) by lia.
assert (He : photo_exists store_one_vote 2).
{ exists (sample_foto 2 2). simpl. auto. }
assert (Ho : ~ owns store_one_vote alice 2).
{ intros (f & [<-|[<-|[]]] & Hid & Hu); discriminate. }
assert (Hv : ~ voted store_one_vote alice 2).
{ intros (r & [<-|[]] & Hid & _). discriminate. }
destruct (vote_accepted 3 2 (-7) store_one_vote alice Hrange He Ho Hv)
  as (r & Hrun & Hrows & _ & Hrate & _).
exists r. exact (conj Hrun (conj Hrows Hrate)).
Defined.




Section UpdateAndUpload.

Variable build_url : option string -> list (string * pyval) -> string.


(** X27.  [create_foto] uploads the file under the public identifier it
    stores: the image service receives, in this order, the configuration
    call, the upload of the file under that identifier and the request for
    its 250x250 fill URL, which becomes the image URL; the row has the
    given title and description, the creator as owner and the done flag
    set, and the Rating table is not written. *)
Theorem create_foto_uploads_under_stored_id (now : Z) (title descr : string)
        (tgs : list string) (file : string) (w : World) (u : User.t) :
  let created := Fotos.create_foto build_url now title descr tgs file w u in
  exists public_id,
    Foto.public_id (fst created) = Some public_id
    /\ cloud (snd created)
       = cloud w ++ [InitCloudinary; Upload file public_id;
                     BuildUrl (Some public_id) Fotos.thumbnail_options]
    /\ Foto.image_url (fst created)
       = Some (build_url (Some public_id) Fotos.thumbnail_options)
    /\ Foto.title (fst created) = Some title
    /\ Foto.descr (fst created) = Some descr
    /\ Foto.user_id (fst created) = Some (User.id u)
    /\ Foto.done (fst created) = true
    /\ Foto.created_at (fst created) = now
    /\ ratings (db (snd created)) = ratings (db w).
Proof.
intros created. subst created. unfold Fotos.create_foto.
destruct tgs as [|tag0 more].
- eexists. cbn [fst snd]. repeat apply conj; reflexivity.
- destruct (get_tags_extends now (split "," tag0) u (db w)) as (ext & _ & _ & Hr).
  destruct (Fotos.get_tags now (split "," tag0) u (db w)) as [tag_rows db1].
  cbn [snd] in Hr. eexists. cbn [fst snd db ratings set_fotos cloud].
  repeat apply conj; try reflexivity. exact Hr.
Qed.

End UpdateAndUpload.

